(** * svelte-form helpers: a shallow embedding of [packages/lib/src/helpers.ts]

    The development follows the source file top to bottom: the JSON value
    model, [createProps], the default-value resolver, the value normalizer,
    the error reshaper [errorsToMap] and the component resolver.

    Modelling conventions.
    - A JavaScript object is represented by its own enumerable string-keyed
      properties, as an association list with pairwise distinct keys: an
      argument in the order [for-in] visits its keys, an object the code
      builds in the order the keys were added.
    - Built-in objects are taken as the language defines them when a call
      starts: nothing has been added to [Object.prototype] or
      [Array.prototype].
    - The error tree and the [path] mapping of a registry are read as the
      source reads them, through the prototype chain: a key that names a
      member of [Object.prototype] (or, on an array, an element, [length] or
      a member of [Array.prototype]) finds that member.  Where the walk of
      [errorsToMap] goes on into such a member, or writes an element of an
      array, the call is recorded as having strayed from the tree and is
      followed no further.
    - JSON values have no representation of a prototype other than the
      default one, nor of a built-in function.  [defaultValue] and
      [normalizeValue] are therefore modelled on own properties: a property
      read yields an own property or [undefined], a property write adds or
      replaces an own property.  This is what the source does unless a key
      is ["__proto__"] or is read from a value that inherits or computes it
      (a member of [Object.prototype], an array element, [length]); the
      statements that depend on this say so in their hypotheses.
    - [undefined] is a value of its own: it is what a read of a missing
      property produces, and the source distinguishes it from [null] with
      strict comparisons.
    - A thrown exception is an explicit outcome of the function that
      throws. *)

From Stdlib Require Import String Ascii List NArith ZArith Bool Lia.
Import ListNotations.
Open Scope string_scope.

(** ** JSON values *)

(** Modelled from the spec: the [JSONSchemaType] and [JSONObject]
    declarations of [./types], a JSON-compatible value: null, a primitive,
    an ordered sequence, or a mapping from string keys to values.  The
    model adds [undefined], which reading a missing property produces.
    Numbers are only ever tested for truthiness by the source, never
    computed with. *)
#[local] Unset Elimination Schemes.
Inductive JSONSchemaType : Type :=
| JUndefined
| JNull
| JBool (b : bool)
| JNumber (n : Z)
| JString (s : string)
| JArray (items : list JSONSchemaType)
| JObject (props : list (string * JSONSchemaType)).
#[local] Set Elimination Schemes.

Definition JSONObject : Type := list (string * JSONSchemaType).

(** Own-property tables, shared by every object-like value of the file. *)
Section Properties.
Variable V : Type.

(** [o[k]] on own properties: the value stored under [k], if any. *)
Fixpoint prop_get (o : list (string * V)) (k : string) : option V :=
  match o with
  | [] => None
  | (k', v) :: rest => if String.eqb k' k then Some v else prop_get rest k
  end.

(** [o[k] = v]: overwrite in place when [k] is already a property, else
    add the property last. *)
Fixpoint prop_set (k : string) (v : V) (o : list (string * V))
  : list (string * V) :=
  match o with
  | [] => [(k, v)]
  | (k', v') :: rest =>
      if String.eqb k' k then (k', v) :: rest
      else (k', v') :: prop_set k v rest
  end.

(** [Object.keys(o)]. *)
Definition prop_keys (o : list (string * V)) : list string := map fst o.
End Properties.
Arguments prop_get {V} o k.
Arguments prop_set {V} k v o.
Arguments prop_keys {V} o.

(** [value === null] *)
Definition is_null (v : JSONSchemaType) : bool :=
  match v with JNull => true | _ => false end.

(** [value === undefined] *)
Definition is_undefined (v : JSONSchemaType) : bool :=
  match v with JUndefined => true | _ => false end.

(** JavaScript truthiness, as used by [&&], [||] and [if]. *)
Definition truthy (v : JSONSchemaType) : bool :=
  match v with
  | JUndefined | JNull => false
  | JBool b => b
  | JNumber n => negb (Z.eqb n 0)
  | JString s => negb (String.eqb s "")
  | JArray _ | JObject _ => true
  end.

(** [value[k]] for a value already known to be truthy.  Only plain objects
    carry named properties in this model. *)
Definition member (v : JSONSchemaType) (k : string) : JSONSchemaType :=
  match v with
  | JObject o => match prop_get o k with Some x => x | None => JUndefined end
  | _ => JUndefined
  end.

(** The [type-detect] package on JSON values. *)
Definition typeDetect (v : JSONSchemaType) : string :=
  match v with
  | JUndefined => "undefined"
  | JNull => "null"
  | JBool _ => "boolean"
  | JNumber _ => "number"
  | JString _ => "string"
  | JArray _ => "Array"
  | JObject _ => "Object"
  end.

(** ** Validation errors (ajv's [ErrorObject]) *)

(** [error.params]: the parameters of a "required" error name the missing
    property; every other keyword has parameters of its own, which the
    source never reads. *)
Inductive ErrorParameters : Type :=
| RequiredParams (missingProperty : string)
| OtherParams.

Record ErrorObject : Type := mkError {
  keyword : string;
  dataPath : string;
  schemaPath : string;
  params : ErrorParameters
}.

(** ** createProps *)

(** Modelled from the spec: the [FieldProps] declaration of [./types], with
    the two fields the source initialises. *)
Record FieldProps : Type := mkFieldProps {
  value : JSONSchemaType;
  errors : option (list ErrorObject)   (* [None] is [null] *)
}.

(** [createProps(value = null)]: the default initialiser applies when the
    argument is omitted, which JavaScript treats as passing [undefined]. *)
Definition createProps (arg : JSONSchemaType) : FieldProps :=
  let value := if is_undefined arg then JNull else arg in
  {| value := value; errors := None |}.

(** ** Schemas *)

(** Modelled from the spec: the [JSONSchemaTypeName] declaration of
    [./types], the standard type names of JSON Schema. *)
Inductive JSONSchemaTypeName : Type :=
| TString | TNumber | TInteger | TBoolean | TObject | TArray | TNull.

(** [schema.type]: absent, one name, or a list of names. *)
Inductive SchemaTypeField : Type :=
| TypeAbsent
| TypeName (n : JSONSchemaTypeName)
| TypeNames (ns : list JSONSchemaTypeName).

(** Modelled from the spec: the [JSONSchema] declaration of [./types]
    (a re-export of the JSON Schema typings), of which the source reads
    [type], [default] and [properties].  A property's sub-schema is either
    a schema node or a bare boolean.  An absent [default] is [JUndefined];
    an absent [properties] is [None]. *)
#[local] Unset Elimination Schemes.
Inductive JSONSchema : Type :=
| SBool (b : bool)
| SNode (type : SchemaTypeField) (default : JSONSchemaType)
        (properties : option (list (string * JSONSchema))).
#[local] Set Elimination Schemes.

(** ** Default-value resolver *)

(** [value && value[k]] *)
Definition item_of (value : JSONSchemaType) (k : string) : JSONSchemaType :=
  if truthy value then member value k else value.

(** The loop of [objectDefaultValue], over the entries of [properties] in
    [for-in] order, with the recursive call as a parameter. *)
Definition objectDefaultValue_loop
    (resolve : JSONSchema -> JSONSchemaType -> JSONSchemaType)
    (properties : option (list (string * JSONSchema)))
    (value : JSONSchemaType) : JSONObject :=
  match properties with
  | None => []
  | Some ps =>
      fold_left
        (fun (v : JSONObject) (entry : string * JSONSchema) =>
           let (k, propSchema) := entry in
           match propSchema with
           | SBool _ => v
           | SNode _ _ _ => prop_set k (resolve propSchema (item_of value k)) v
           end)
        ps []
  end.

Fixpoint defaultValue (schema : JSONSchema) (value : JSONSchemaType)
  {struct schema} : JSONSchemaType :=
  match schema with
  | SBool _ => value    (* a boolean has neither [default] nor [type] *)
  | SNode type default properties =>
      let value :=
        if is_null value && negb (is_undefined default) then default
        else value in
      match type with
      | TypeName TObject =>
          JObject (objectDefaultValue_loop defaultValue properties value)
      | TypeName TArray => if truthy value then value else JArray []
      | _ => value
      end
  end.

Definition objectDefaultValue (schema : JSONSchema) (value : JSONSchemaType)
  : JSONSchemaType :=
  match schema with
  | SBool _ => JObject []
  | SNode _ _ properties =>
      JObject (objectDefaultValue_loop defaultValue properties value)
  end.

(** ** Value normalizer *)

(** [normalizeObject] on a mapping-shaped value.  The loop runs over the
    entries of [value] in [for-in] order; [v] is [value[k]]. *)
Fixpoint normalizeNode (node : JSONSchemaType) (isRoot : bool)
  {struct node} : JSONSchemaType :=
  match node with
  | JObject value =>
      let obj :=
        fold_left
          (fun (obj : JSONObject) (entry : string * JSONSchemaType) =>
             let (k, v) := entry in
             let v := if String.eqb (typeDetect v) "Object"
                      then normalizeNode v false else v in
             if negb (is_null v) then prop_set k v obj else obj)
          value [] in
      match prop_keys obj with
      | _ :: _ => JObject obj
      | [] => if isRoot then JObject [] else JNull
      end
  | _ => node
  end.

Definition normalizeObject (value : JSONObject) (isRoot : bool)
  : JSONSchemaType :=
  normalizeNode (JObject value) isRoot.

Definition normalizeValue (value : JSONSchemaType) : JSONSchemaType :=
  if String.eqb (typeDetect value) "Object"
  then match value with
       | JObject o => normalizeObject o true
       | _ => value
       end
  else value.

(** One turn of the loop of [normalizeObject], named for the proofs. *)
Definition normalize_step (obj : JSONObject) (entry : string * JSONSchemaType)
  : JSONObject :=
  let (k, v) := entry in
  let v := if String.eqb (typeDetect v) "Object"
           then normalizeNode v false else v in
  if negb (is_null v) then prop_set k v obj else obj.

(** A value that normalization leaves alone: in a mapping the keys are
    pairwise distinct and no entry is [null], an empty mapping, or a
    mapping that is not itself stable.  Arrays are not looked into. *)
Fixpoint settled (v : JSONSchemaType) : Prop :=
  match v with
  | JObject o =>
      NoDup (prop_keys o)
      /\ (fix all (l : JSONObject) : Prop :=
            match l with
            | [] => True
            | (_, x) :: rest =>
                (x <> JNull /\ x <> JObject [] /\ settled x) /\ all rest
            end) o
  | _ => True
  end.

Definition settled_entry (e : string * JSONSchemaType) : Prop :=
  snd e <> JNull /\ snd e <> JObject [] /\ settled (snd e).

(** A table under construction by the loop of [normalizeObject]. *)
Definition table_ok (obj : JSONObject) : Prop :=
  NoDup (prop_keys obj) /\ Forall settled_entry obj.

(** The outcome of normalizing [v] in either position is stable, and in a
    nested position it is never the empty mapping. *)
Definition normalizes_well (v : JSONSchemaType) : Prop :=
  forall isRoot : bool,
    settled (normalizeNode v isRoot)
    /\ (isRoot = false -> normalizeNode v isRoot <> JObject []).

(** A stable, non-empty value is left as it is in either position. *)
Definition fixed_by_normalize (v : JSONSchemaType) : Prop :=
  settled v -> v <> JObject [] ->
  forall isRoot : bool, normalizeNode v isRoot = v.

(** ** Error reshaper *)

(** The outcome of a call: it returns, it throws an exception (a
    [TypeError], or a [RangeError] from a write to [length]), or it strays:
    it reads on into, or writes, something that is not a named own property
    of a node of the tree (a built-in object, an element of a list).  What
    the source does after straying depends on objects the tree does not
    hold; the model follows it no further. *)
Inductive Completion (A : Type) : Type :=
| Returns (a : A)
| Throws
| Strays.
Arguments Returns {A} a.
Arguments Throws {A}.
Arguments Strays {A}.

(** [s.split('.')]: the maximal dot-free pieces of [s], never an empty
    list. *)
Fixpoint split_dot (s : string) : list string :=
  match s with
  | EmptyString => [EmptyString]
  | String c rest =>
      if Ascii.eqb c "."%char then EmptyString :: split_dot rest
      else match split_dot rest with
           | [] => [String c EmptyString]
           | seg :: segs => String c seg :: segs
           end
  end.

(** [segs.join('.')] *)
Fixpoint join_dot (segs : list string) : string :=
  match segs with
  | [] => ""
  | [seg] => seg
  | seg :: rest => seg ++ "." ++ join_dot rest
  end.

(** Whether a segment is free of the separator. *)
Fixpoint dot_free (s : string) : bool :=
  match s with
  | EmptyString => true
  | String c rest => negb (Ascii.eqb c "."%char) && dot_free rest
  end.

(** The text a template literal gives [params.missingProperty]; a missing
    member interpolates as "undefined". *)
Definition missingProperty_text (p : ErrorParameters) : string :=
  match p with
  | RequiredParams missingProperty => missingProperty
  | OtherParams => "undefined"
  end.

(** The callback of [errors.map]: the field path of one error. *)
Definition error_path (error : ErrorObject) : list string :=
  let pathSuffix :=
    if String.eqb (keyword error) "required"
    then "." ++ missingProperty_text (params error)
    else "" in
  skipn 1 (split_dot (dataPath error ++ pathSuffix)).

(** Modelled from the spec: the [ErrorRecord] declaration of [./types], a
    mapping from path segment to a nested error tree or to a list of error
    records.  At run time the two are a plain object and an array; an array
    is an object too and can be given named properties of its own, which
    the second constructor keeps beside the elements. *)
#[local] Unset Elimination Schemes.
Inductive ErrorValue : Type :=
| ERecord (props : list (string * ErrorValue))
| EList (items : list ErrorObject) (props : list (string * ErrorValue)).
#[local] Set Elimination Schemes.

Definition ErrorRecord : Type := ErrorValue.

Definition own_props (obj : ErrorValue) : list (string * ErrorValue) :=
  match obj with
  | ERecord props => props
  | EList _ props => props
  end.

Definition with_props (obj : ErrorValue) (props : list (string * ErrorValue))
  : ErrorValue :=
  match obj with
  | ERecord _ => ERecord props
  | EList items _ => EList items props
  end.

(** [obj[key] = child], as an update of the node [obj]. *)
Definition assign (obj : ErrorValue) (key : string) (child : ErrorValue)
  : ErrorValue :=
  with_props obj (prop_set key child (own_props obj)).

(** Membership of a name in a list of names. *)
Definition name_in (k : string) (names : list string) : bool :=
  existsb (String.eqb k) names.

(** The string-keyed members of [Object.prototype], which every object
    inherits.  All are functions but ["__proto__"], which reads as the
    prototype itself. *)
Definition object_prototype_names : list string :=
  ["constructor"; "hasOwnProperty"; "isPrototypeOf"; "propertyIsEnumerable";
   "toLocaleString"; "toString"; "valueOf";
   "__defineGetter__"; "__defineSetter__";
   "__lookupGetter__"; "__lookupSetter__"; "__proto__"].

(** The further members of [Array.prototype] that every engine able to
    run the source defines; all are functions. *)
Definition array_prototype_names : list string :=
  ["concat"; "copyWithin"; "entries"; "every"; "fill"; "filter"; "find";
   "findIndex"; "flat"; "flatMap"; "forEach"; "includes"; "indexOf"; "join";
   "keys"; "lastIndexOf"; "map"; "pop"; "push"; "reduce"; "reduceRight";
   "reverse"; "shift"; "slice"; "some"; "sort"; "splice"; "unshift";
   "values"].

(** Members of [Array.prototype] that only later editions of the language
    define: whether a key finds one depends on the engine. *)
Definition later_array_names : list string :=
  ["at"; "findLast"; "findLastIndex"; "toReversed"; "toSorted"; "toSpliced";
   "with"].

Definition digit_of (c : ascii) : option N :=
  let n := N_of_ascii c in
  if N.leb 48 n && N.leb n 57 then Some (n - 48)%N else None.

Fixpoint decimal (s : string) (acc : N) : option N :=
  match s with
  | EmptyString => Some acc
  | String c rest =>
      match digit_of c with
      | Some d => decimal rest (10 * acc + d)%N
      | None => None
      end
  end.

(** The array index a key denotes: the key is the decimal numeral, without
    a leading zero, of a number below [2^32 - 1]. *)
Definition array_index (k : string) : option N :=
  match k with
  | EmptyString => None
  | String c rest =>
      if Ascii.eqb c "0"%char && negb (String.eqb rest "") then None
      else match decimal k 0 with
           | Some n => if N.ltb n 4294967295 then Some n else None
           | None => None
           end
  end.

(** What [obj[key]] finds on a node of the tree. *)
Inductive Slot : Type :=
| Own (child : ErrorValue)
    (* a named own property *)
| Member
    (* a built-in function or [Object.prototype], an element of a list, or
       a non-zero [length]: truthy, and [push] is not a function on it *)
| ArrayPrototype
    (* [Array.prototype], found under ["__proto__"] on a list: truthy, and
       [push] is a function on it *)
| Later
    (* a name of [later_array_names] on a list *)
| Hole
    (* an index past the elements of a list: [undefined]; a write to it
       adds an element *)
| ZeroLength
    (* the [length] of an empty list: falsy; a write to it throws *)
| Vacant.
    (* [undefined]; a write to it adds a named own property *)

Definition slot_of (obj : ErrorValue) (key : string) : Slot :=
  match obj with
  | ERecord props =>
      match prop_get props key with
      | Some child => Own child
      | None =>
          if name_in key object_prototype_names then Member else Vacant
      end
  | EList items props =>
      match array_index key with
      | Some i =>
          if N.ltb i (N.of_nat (length items)) then Member else Hole
      | None =>
          if String.eqb key "length"
          then match items with
               | [] => ZeroLength
               | _ :: _ => Member
               end
          else
            match prop_get props key with
            | Some child => Own child
            | None =>
                if String.eqb key "__proto__" then ArrayPrototype
                else if name_in key object_prototype_names
                        || name_in key array_prototype_names then Member
                else if name_in key later_array_names then Later
                else Vacant
            end
      end
  end.

(** The inner [path.reduce] started at [obj]: the node [obj] after the walk.
    On every segment but the last the walk descends into [obj[key]],
    creating an empty record when the read gives [undefined]; on the last
    it pushes onto [obj[key]] or stores a singleton list.  [push] is
    callable only on an array that has no own property of that name. *)
Fixpoint place (path : list string) (error : ErrorObject) (obj : ErrorValue)
  {struct path} : Completion ErrorValue :=
  match path with
  | [] => Returns obj
  | key :: rest =>
      match rest with
      | _ :: _ =>
          let descend (child : ErrorValue) :=
            match place rest error child with
            | Returns child' => Returns (assign obj key child')
            | Throws => Throws
            | Strays => Strays
            end in
          match slot_of obj key with
          | Own child => descend child
          | Vacant => descend (ERecord [])
          | ZeroLength => Throws
          | Member | ArrayPrototype | Later | Hole => Strays
          end
      | [] =>
          match slot_of obj key with
          | Own (EList items props) =>
              match prop_get props "push" with
              | None => Returns (assign obj key (EList (items ++ [error]) props))
              | Some _ => Throws
              end
          | Own (ERecord _) => Throws
          | Member => Throws
          | ZeroLength => Throws
          | Vacant => Returns (assign obj key (EList [error] []))
          | ArrayPrototype | Later | Hole => Strays
          end
      end
  end.

Definition errorsToMap (errors : list ErrorObject) : Completion ErrorRecord :=
  let errorMap := ERecord [] in
  fold_left
    (fun (acc : Completion ErrorRecord) (entry : list string * ErrorObject) =>
       let (path, error) := entry in
       match acc with
       | Returns tree => place path error tree
       | Throws => Throws
       | Strays => Strays
       end)
    (map (fun error => (error_path error, error)) errors)
    (Returns errorMap).

(** The tree that holds one error at the end of one path: a chain of
    records, one per segment, ending in the singleton list. *)
Fixpoint path_tree (path : list string) (error : ErrorObject) : ErrorValue :=
  match path with
  | [] => ERecord []
  | key :: rest =>
      match rest with
      | [] => ERecord [(key, EList [error] [])]
      | _ :: _ => ERecord [(key, path_tree rest error)]
      end
  end.

(** The error-tree invariant of the data model, as a check on a value: a
    record holds well-shaped values only, and a list is non-empty and has
    no named property. *)
Fixpoint well_shaped (v : ErrorValue) : bool :=
  match v with
  | ERecord props =>
      (fix all (l : list (string * ErrorValue)) : bool :=
         match l with
         | [] => true
         | (_, child) :: rest => well_shaped child && all rest
         end) props
  | EList items props =>
      match items, props with
      | _ :: _, [] => true
      | _, _ => false
      end
  end.


(** ** Component resolver *)

(** A renderable component of the GUI framework: an opaque reference,
    told apart by its name. *)
Inductive SvelteComponent : Type :=
| Component (name : string).

(** Modelled from the spec: the [Props] declaration of [./types], the
    extra props mapping handed to a component. *)
Definition Props : Type := JSONObject.

(** Modelled from the spec: the [PathComponents] declaration of [./types].
    An entry of the path mapping is a bare component, a pair of a component
    and its props, or a nested path mapping.  A read of a mapping can also
    find a member the mapping inherits from [Object.prototype]; the last
    constructor stands for that member, a truthy value that is not an
    array. *)
#[local] Unset Elimination Schemes.
Inductive PathEntry : Type :=
| Bare (c : SvelteComponent)
| WithProps (c : SvelteComponent) (p : Props)
| Nested (m : list (string * PathEntry))
| Inherited (name : string).
#[local] Set Elimination Schemes.

Definition PathComponents : Type := list (string * PathEntry).

(** Modelled from the spec: the [FormComponents] declaration of [./types],
    one component per schema type name and an optional [path] mapping.
    [repackComponents] stores an entry in [path] through an unchecked
    cast, so the field holds any entry; [None] is [undefined]. *)
Record FormComponents : Type := mkComponents {
  registered : JSONSchemaTypeName -> option SvelteComponent;
  path : option PathEntry
}.

Definition is_object (type : JSONSchemaTypeName) : bool :=
  match type with TObject => true | _ => false end.

(** [m[key]] on a value in the [path] position.  A mapping has its own
    entries and, under the names of [object_prototype_names], the members
    it inherits.  The members of a component class, of a pair and of a
    built-in are not modelled: [path] holds one of these only after
    [repackComponents] stored it there through its cast, and the
    statements about reads of [path] are about registries whose [path] is
    absent or a mapping. *)
Definition entry_get (m : PathEntry) (key : string) : option PathEntry :=
  match m with
  | Nested entries =>
      match prop_get entries key with
      | Some entry => Some entry
      | None =>
          if name_in key object_prototype_names then Some (Inherited key)
          else None
      end
  | Bare _ | WithProps _ _ | Inherited _ => None
  end.

(** [components.path && components.path[key]] *)
Definition pathComponent_of (components : FormComponents) (key : string)
  : option PathEntry :=
  match path components with
  | Some m => entry_get m key
  | None => None
  end.

Definition repackComponents (components : FormComponents)
    (type : JSONSchemaTypeName) (key : string) : FormComponents :=
  if is_object type then
    match path components with
    | Some m =>
        let path := entry_get m key in
        {| registered := registered components; path := path |}
    | None => components
    end
  else components.

(** The result is the JavaScript value returned: a component comes back as
    [Bare], a nested mapping or an inherited member (returned through the
    cast) as itself, and [None] is [undefined]. *)
Definition getComponent (components : FormComponents)
    (type : JSONSchemaTypeName) (key : string) : option PathEntry :=
  let fallback := option_map Bare (registered components type) in
  if is_object type then
    match pathComponent_of components key with
    | Some (WithProps c _) => Some (Bare c)
    | Some pathComponent => Some pathComponent
    | None => fallback
    end
  else fallback.

Definition getComponentProps (components : FormComponents)
    (type : JSONSchemaTypeName) (key : string) : Props :=
  if is_object type then
    match pathComponent_of components key with
    | Some (WithProps _ p) => p
    | _ => []
    end
  else [].

(** ** Well-formed inputs *)

(** The keys of a JavaScript object are pairwise distinct. *)
Fixpoint distinct (keys : list string) : bool :=
  match keys with
  | [] => true
  | k :: rest => negb (existsb (String.eqb k) rest) && distinct rest
  end.

(** A schema all of whose [properties] tables, at every depth, have
    pairwise distinct keys. *)
Fixpoint schema_wf (schema : JSONSchema) : bool :=
  match schema with
  | SBool _ => true
  | SNode _ _ None => true
  | SNode _ _ (Some ps) =>
      distinct (prop_keys ps)
      && (fix all (l : list (string * JSONSchema)) : bool :=
            match l with
            | [] => true
            | (_, p) :: rest => schema_wf p && all rest
            end) ps
  end.

(** [typeof propSchema !== 'boolean'] on an entry of [properties]. *)
Definition is_node_entry (entry : string * JSONSchema) : bool :=
  match snd entry with
  | SBool _ => false
  | SNode _ _ _ => true
  end.

(** The keys of the properties that [objectDefaultValue] resolves. *)
Definition declared_keys (ps : list (string * JSONSchema)) : list string :=
  prop_keys (filter is_node_entry ps).

(** The value under test in [defaultValue] after the first statement. *)
Definition substituted (default value : JSONSchemaType) : JSONSchemaType :=
  if is_null value && negb (is_undefined default) then default else value.

(** What [normalizeObject] computes for the value of one entry. *)
Definition normalized_entry (v : JSONSchemaType) : JSONSchemaType :=
  if String.eqb (typeDetect v) "Object" then normalizeNode v false else v.

(** [Object.keys(v)] for a mapping, and no key otherwise. *)
Definition keys_of (v : JSONSchemaType) : list string :=
  match v with
  | JObject o => prop_keys o
  | _ => []
  end.

(** The entries that one entry of the input contributes to the result of
    [normalizeObject]: none when its value normalizes to [null]. *)
Definition kept_entry (entry : string * JSONSchemaType) : JSONObject :=
  if is_null (normalized_entry (snd entry)) then []
  else [(fst entry, normalized_entry (snd entry))].

(** One turn of the loop of [objectDefaultValue], named for the proofs. *)
Definition default_step
    (resolve : JSONSchema -> JSONSchemaType -> JSONSchemaType)
    (value : JSONSchemaType) (v : JSONObject) (entry : string * JSONSchema)
  : JSONObject :=
  let (k, propSchema) := entry in
  match propSchema with
  | SBool _ => v
  | SNode _ _ _ => prop_set k (resolve propSchema (item_of value k)) v
  end.

(** The entry that [objectDefaultValue] stores for one resolved property. *)
Definition resolved_entry
    (resolve : JSONSchema -> JSONSchemaType -> JSONSchemaType)
    (value : JSONSchemaType) (entry : string * JSONSchema)
  : string * JSONSchemaType :=
  (fst entry, resolve (snd entry) (item_of value (fst entry))).

(** The tree that holds a list of errors at the end of one path. *)
Fixpoint path_list_tree (segments : list string) (items : list ErrorObject)
  : ErrorValue :=
  match segments with
  | [] => ERecord []
  | key :: rest =>
      match rest with
      | [] => ERecord [(key, EList items [])]
      | _ :: _ => ERecord [(key, path_list_tree rest items)]
      end
  end.

(** One turn of the outer [reduce] of [errorsToMap], named for the
    proofs. *)
Definition reduce_step (acc : Completion ErrorRecord)
    (entry : list string * ErrorObject) : Completion ErrorRecord :=
  let (path, error) := entry in
  match acc with
  | Returns tree => place path error tree
  | Throws => Throws
  | Strays => Strays
  end.

(** ** Plain keys *)

(** A key that names nothing but an own property, on a record and on a
    list alike: not a member of [Object.prototype] or [Array.prototype],
    not [length], not an array index. *)
Definition plain_key (k : string) : bool :=
  negb (name_in k object_prototype_names
        || name_in k array_prototype_names
        || name_in k later_array_names
        || String.eqb k "length"
        || match array_index k with Some _ => true | None => false end).

(** Every segment of every field path of the errors is a plain key. *)
Definition plain_paths (errors : list ErrorObject) : bool :=
  forallb (fun error => forallb plain_key (error_path error)) errors.

(** The walk of [errorsToMap] on own properties alone; [place] coincides
    with it on plain keys. *)
Fixpoint place_own (path : list string) (error : ErrorObject)
    (obj : ErrorValue) {struct path} : Completion ErrorValue :=
  match path with
  | [] => Returns obj
  | key :: rest =>
      match rest with
      | _ :: _ =>
          let child :=
            match prop_get (own_props obj) key with
            | Some c => c
            | None => ERecord []
            end in
          match place_own rest error child with
          | Returns child' => Returns (assign obj key child')
          | Throws => Throws
          | Strays => Strays
          end
      | [] =>
          match prop_get (own_props obj) key with
          | Some (EList items props) =>
              match prop_get props "push" with
              | None => Returns (assign obj key (EList (items ++ [error]) props))
              | Some _ => Throws
              end
          | Some (ERecord _) => Throws
          | None => Returns (assign obj key (EList [error] []))
          end
      end
  end.

Definition reduce_step_own (acc : Completion ErrorRecord)
    (entry : list string * ErrorObject) : Completion ErrorRecord :=
  let (path, error) := entry in
  match acc with
  | Returns tree => place_own path error tree
  | Throws => Throws
  | Strays => Strays
  end.

Definition errorsToMap_own (errors : list ErrorObject)
  : Completion ErrorRecord :=
  fold_left reduce_step_own
    (map (fun error => (error_path error, error)) errors)
    (Returns (ERecord [])).

(** ** Field paths that do not collide *)

Fixpoint is_prefix (p q : list string) : bool :=
  match p, q with
  | [], _ => true
  | _ :: _, [] => false
  | x :: p', y :: q' => String.eqb x y && is_prefix p' q'
  end.

(** [p] is a prefix of [q] and shorter than [q]. *)
Definition proper_prefix (p q : list string) : bool :=
  is_prefix p q && Nat.ltb (length p) (length q).

(** No path of the list is a proper prefix of another. *)
Definition prefix_free (paths : list (list string)) : bool :=
  forallb (fun p => forallb (fun q => negb (proper_prefix p q)) paths) paths.

(** The non-empty field paths of a list of errors, in order. *)
Definition field_paths (errors : list ErrorObject) : list (list string) :=
  filter (fun p => match p with [] => false | _ :: _ => true end)
         (map error_path errors).

Definition is_list (v : ErrorValue) : bool :=
  match v with
  | EList _ _ => true
  | ERecord _ => false
  end.

(** A value below the root of a tree that keeps the invariant: a record is
    non-empty and holds such values only, a list is non-empty and has no
    named property. *)
Fixpoint tidy (v : ErrorValue) : Prop :=
  match v with
  | ERecord props =>
      props <> []
      /\ (fix all (l : list (string * ErrorValue)) : Prop :=
            match l with
            | [] => True
            | (_, child) :: rest => tidy child /\ all rest
            end) props
  | EList items props => items <> [] /\ props = []
  end.

(** Walking [segments] from [v] through own properties ends at a list. *)
Fixpoint has_leaf (segments : list string) (v : ErrorValue) : Prop :=
  match segments with
  | [] => False
  | key :: rest =>
      match prop_get (own_props v) key with
      | None => False
      | Some child =>
          match rest with
          | [] => is_list child = true
          | _ :: _ => has_leaf rest child
          end
      end
  end.

(** The state of the outer [reduce] between two errors: a record whose
    values are tidy and whose lists sit at paths already seen. *)
Definition reshaped (tree : ErrorValue) (seen : list (list string)) : Prop :=
  is_list tree = false
  /\ Forall (fun e => tidy (snd e)) (own_props tree)
  /\ forall q, has_leaf q tree -> In q seen.

(** ** Reading the error tree *)

Fixpoint path_eqb (p q : list string) : bool :=
  match p, q with
  | [], [] => true
  | x :: p', y :: q' => String.eqb x y && path_eqb p' q'
  | _, _ => false
  end.

(** The elements of a value when it is a list. *)
Definition node_items (v : ErrorValue) : list ErrorObject :=
  match v with
  | EList items _ => items
  | ERecord _ => []
  end.

(** What a reader finds walking [segments] from [v] through own
    properties: the elements of the list the walk ends at, if it ends at
    one. *)
Fixpoint errors_at (segments : list string) (v : ErrorValue)
  : list ErrorObject :=
  match segments with
  | [] => []
  | key :: rest =>
      match prop_get (own_props v) key with
      | None => []
      | Some child =>
          match rest with
          | [] => node_items child
          | _ :: _ => errors_at rest child
          end
      end
  end.

(** ** Validator facade *)

(** The validation engine as this file sees it: the options it is built
    with, the meta-schemas added to it, and which construction it came
    from (its identity as an object). *)
Record Ajv : Type := mkAjv {
  schemaId : string;
  allErrors : bool;
  metaSchemas : list string;
  instance : nat
}.

(** The module-level variable [ajv] ([None] before the first access) and
    the number of engines constructed so far. *)
Record ModuleState : Type := mkState {
  ajv_slot : option Ajv;
  constructed : nat
}.

(** [ajv.addMetaSchema(meta)] *)
Definition addMetaSchema (ajv : Ajv) (meta : string) : Ajv :=
  {| schemaId := schemaId ajv;
     allErrors := allErrors ajv;
     metaSchemas := meta :: metaSchemas ajv;
     instance := instance ajv |}.

(** The getter [options.ajv]: the engine it returns and the state it
    leaves. *)
Definition options_ajv (s : ModuleState) : Ajv * ModuleState :=
  match ajv_slot s with
  | Some ajv => (ajv, s)
  | None =>
      let ajv :=
        addMetaSchema
          {| schemaId := "auto"; allErrors := true; metaSchemas := [];
             instance := constructed s |}
          "json-schema-draft-04" in
      (ajv, {| ajv_slot := Some ajv; constructed := S (constructed s) |})
  end.

(** [n] accesses in a row: the engines returned, first to last, and the
    final state. *)
Fixpoint accesses (n : nat) (s : ModuleState) : list Ajv * ModuleState :=
  match n with
  | O => ([], s)
  | S n' =>
      let (ajv, s1) := options_ajv s in
      let (rest, s2) := accesses n' s1 in
      (ajv :: rest, s2)
  end.

(** ** Registries as declared *)

(** The [path] of the registry is absent or a mapping, as [FormComponents]
    declares it. *)
Definition path_is_mapping (components : FormComponents) : bool :=
  match path components with
  | None => true
  | Some (Nested _) => true
  | Some (Bare _) | Some (WithProps _ _) | Some (Inherited _) => false
  end.

(** ** Values and schemas read on own properties *)

(** No mapping of the value, at any depth reached through mappings, has a
    key ["__proto__"].  On such a value every write of [normalizeObject]
    adds an own property. *)
Fixpoint proto_free (v : JSONSchemaType) : bool :=
  match v with
  | JObject o =>
      (fix all (l : JSONObject) : bool :=
         match l with
         | [] => true
         | (k, x) :: rest =>
             negb (String.eqb k "__proto__") && proto_free x && all rest
         end) o
  | _ => true
  end.

(** A value that is falsy or a mapping: [value && value[k]] then is the
    value itself or a read of a mapping. *)
Definition falsy_or_mapping (v : JSONSchemaType) : bool :=
  negb (truthy v) || match v with JObject _ => true | _ => false end.

(** In the call [defaultValue(schema, value)] every property read is a
    read of a mapping at a key that names no member of [Object.prototype],
    and so is every write: at each object schema the call reaches, the
    value is falsy or a mapping and no resolved property is named like an
    inherited member. *)
Fixpoint own_reads (schema : JSONSchema) (value : JSONSchemaType) : bool :=
  match schema with
  | SBool _ => true
  | SNode type default properties =>
      match type with
      | TypeName TObject =>
          falsy_or_mapping (substituted default value)
          && match properties with
             | None => true
             | Some ps =>
                 (fix all (l : list (string * JSONSchema)) : bool :=
                    match l with
                    | [] => true
                    | (k, p) :: rest =>
                        match p with
                        | SBool _ => true
                        | SNode _ _ _ =>
                            negb (name_in k object_prototype_names)
                            && own_reads p
                                 (item_of (substituted default value) k)
                        end
                        && all rest
                    end) ps
             end
      | _ => true
      end
  end.

(** * Example data *)

(** The two errors of the reshaper example, and an error at the root. *)
Definition type_at_foo : ErrorObject :=
  mkError "type" ".foo" "#/properties/foo/type" OtherParams.

Definition required_bar : ErrorObject :=
  mkError "required" "" "#/required" (RequiredParams "bar").

Definition root_error : ErrorObject :=
  mkError "type" "" "#/type" OtherParams.

(** Two errors of which one sits at a prefix of the other's path. *)
Definition minProperties_at_a : ErrorObject :=
  mkError "minProperties" ".a" "#/properties/a/minProperties" OtherParams.

Definition type_at_a_b : ErrorObject :=
  mkError "type" ".a.b" "#/properties/a/properties/b/type" OtherParams.

(** The object schema of the default-value example:
    [{type: "object", properties: {a: {type: "string", default: "x"},
                                   b: {type: "number"}}}]. *)
Definition schema_a_b : JSONSchema :=
  SNode (TypeName TObject) JUndefined
    (Some [("a", SNode (TypeName TString) (JString "x") None);
           ("b", SNode (TypeName TNumber) JUndefined None)]).

(** Components and registries of the resolver examples. *)
Definition CompA : SvelteComponent := Component "CompA".
Definition CompB : SvelteComponent := Component "CompB".
Definition ObjectField : SvelteComponent := Component "ObjectField".
Definition StringField : SvelteComponent := Component "StringField".

Definition by_type (type : JSONSchemaTypeName) : option SvelteComponent :=
  match type with
  | TObject => Some ObjectField
  | TString => Some StringField
  | _ => None
  end.

(** [path = {name: [CompA, {x: 1}]}] *)
Definition registry_name : FormComponents :=
  {| registered := by_type;
     path := Some (Nested [("name", WithProps CompA [("x", JNumber 1)])]) |}.

(** [path = {address: {path: {city: CompB}}}] *)
Definition registry_address : FormComponents :=
  {| registered := by_type;
     path := Some (Nested [("address",
                            Nested [("path", Nested [("city", Bare CompB)])])]) |}.

(** [path = {address: {city: CompB}}] *)
Definition registry_address_flat : FormComponents :=
  {| registered := by_type;
     path := Some (Nested [("address", Nested [("city", Bare CompB)])]) |}.

(** A mapping with a null entry, an empty nested mapping, an array and an
    [undefined] entry. *)
Definition mixed_mapping : JSONObject :=
  [("gone", JNull);
   ("empty", JObject [("inner", JObject [])]);
   ("list", JArray [JNull; JObject []]);
   ("hole", JUndefined);
   ("kept", JObject [("n", JNumber 0)])].

(** A boolean sub-schema beside the two properties of the example. *)
Definition properties_with_boolean : list (string * JSONSchema) :=
  [("a", SNode (TypeName TString) (JString "x") None);
   ("free", SBool true);
   ("tags", SNode (TypeName TArray) JUndefined None);
   ("b", SNode (TypeName TNumber) JUndefined None)].

Definition schema_with_boolean : JSONSchema :=
  SNode (TypeName TObject) JUndefined (Some properties_with_boolean).

(** Errors of a nested field: two at [.user.name], one "required" error
    reported at [.user]. *)
Definition minLength_at_name : ErrorObject :=
  mkError "minLength" ".user.name"
    "#/properties/user/properties/name/minLength" OtherParams.

Definition pattern_at_name : ErrorObject :=
  mkError "pattern" ".user.name"
    "#/properties/user/properties/name/pattern" OtherParams.

Definition required_email : ErrorObject :=
  mkError "required" ".user" "#/properties/user/required"
    (RequiredParams "email").

(** [path = {address: {city: [CompB, {x: 1}]}, name: CompA}] *)
Definition registry_nested : FormComponents :=
  {| registered := by_type;
     path := Some (Nested [("address",
                            Nested [("city",
                                     WithProps CompB [("x", JNumber 1)])]);
                           ("name", Bare CompA)]) |}.

(** A registry with nothing registered per type. *)
Definition registry_unregistered : FormComponents :=
  {| registered := fun _ => None;
     path := Some (Nested [("name", Bare CompA)]) |}.

(** * Properties *)

(** ** createProps *)

(** C9: for every argument, [createProps] returns a record whose [value] is
    the argument and whose [errors] is [null]; an omitted argument (which
    reaches the function as [undefined]) defaults to [null]. *)
Theorem createProps_fields :
  forall arg : JSONSchemaType,
    value (createProps arg) = (if is_undefined arg then JNull else arg)
    /\ (is_undefined arg = false -> value (createProps arg) = arg)
    /\ value (createProps JUndefined) = JNull
    /\ errors (createProps arg) = None.
Proof.
  intro arg; unfold createProps; cbn.
  repeat split.
  intros H; now rewrite H.
Qed.

Lemma createProps_fields_witness :
  value (createProps (JString "a")) = JString "a".
Proof.
  apply (proj1 (proj2 (createProps_fields (JString "a")))). reflexivity.
Defined.

(** ** Own-property tables *)

Lemma prop_set_keys_in :
  forall (V : Type) (k : string) (v : V) (o : list (string * V)) (x : string),
    In x (prop_keys (prop_set k v o)) -> x = k \/ In x (prop_keys o).
Proof.
  intros V k v o x. induction o as [|[k' v'] rest IH]; cbn.
  - intros [H|[]]; auto.
  - destruct (String.eqb k' k); cbn; intuition.
Qed.

Lemma prop_set_nodup :
  forall (V : Type) (k : string) (v : V) (o : list (string * V)),
    NoDup (prop_keys o) -> NoDup (prop_keys (prop_set k v o)).
Proof.
  intros V k v o. induction o as [|[k' v'] rest IH]; cbn; intro H.
  - constructor; [intros []|constructor].
  - inversion H as [|? ? Hnot Hrest]; subst.
    destruct (String.eqb k' k) eqn:E; cbn; [exact H|].
    constructor; [|now apply IH].
    intro Hin. apply prop_set_keys_in in Hin as [->|Hin]; [|contradiction].
    now rewrite String.eqb_refl in E.
Qed.

Lemma prop_set_forall :
  forall (V : Type) (R : V -> Prop) (k : string) (v : V)
         (o : list (string * V)),
    Forall (fun e => R (snd e)) o -> R v ->
    Forall (fun e => R (snd e)) (prop_set k v o).
Proof.
  intros V R k v o Ho Hv. induction Ho as [|[k' v'] rest Hx Hrest IH]; cbn.
  - now constructor.
  - destruct (String.eqb k' k); constructor; auto.
Qed.

Lemma prop_set_fresh :
  forall (V : Type) (k : string) (v : V) (o : list (string * V)),
    ~ In k (prop_keys o) -> prop_set k v o = (o ++ [(k, v)])%list.
Proof.
  intros V k v o. induction o as [|[k' v'] rest IH]; cbn; intro H; [reflexivity|].
  destruct (String.eqb k' k) eqn:E.
  - apply String.eqb_eq in E. exfalso; auto.
  - now rewrite IH by auto.
Qed.

(** ** Splitting a data path *)

Lemma split_dot_nonempty : forall s, split_dot s <> [].
Proof.
  destruct s as [|c rest]; cbn; [discriminate|].
  destruct (Ascii.eqb c "."); [discriminate|].
  destruct (split_dot rest); discriminate.
Qed.

Lemma join_dot_cons :
  forall seg segs, segs <> [] ->
    join_dot (seg :: segs) = seg ++ "." ++ join_dot segs.
Proof.
  intros seg [|x xs] H; [contradiction|reflexivity].
Qed.

Lemma join_split_dot : forall s, join_dot (split_dot s) = s.
Proof.
  induction s as [|c rest IH]; [reflexivity|].
  cbn [split_dot].
  destruct (Ascii.eqb c ".") eqn:Hc.
  - apply Ascii.eqb_eq in Hc; subst c.
    rewrite join_dot_cons by apply split_dot_nonempty.
    cbn. now rewrite IH.
  - pose proof (split_dot_nonempty rest) as Hne.
    destruct (split_dot rest) as [|seg segs]; [contradiction|].
    rewrite <- IH.
    destruct segs; reflexivity.
Qed.

Lemma split_dot_segments : forall s, forallb dot_free (split_dot s) = true.
Proof.
  induction s as [|c rest IH]; [reflexivity|].
  cbn [split_dot].
  destruct (Ascii.eqb c ".") eqn:Hc.
  - cbn. exact IH.
  - pose proof (split_dot_nonempty rest) as Hne.
    destruct (split_dot rest) as [|seg segs]; [contradiction|].
    cbn in *. now rewrite Hc.
Qed.

Lemma skipn1_head :
  forall (A : Type) (l : list A), l <> [] -> exists x, l = x :: skipn 1 l.
Proof.
  intros A [|x xs] H; [contradiction|]. now exists x.
Qed.

(** ** Error reshaper *)

Lemma place_own_in_empty_record :
  forall (segments : list string) (error : ErrorObject),
    place_own segments error (ERecord []) = Returns (path_tree segments error).
Proof.
  intros segments error.
  induction segments as [|key rest IH]; [reflexivity|].
  destruct rest as [|key' rest']; [reflexivity|].
  change (place_own (key :: key' :: rest') error (ERecord []))
    with (match place_own (key' :: rest') error (ERecord []) with
          | Returns child' => Returns (assign (ERecord []) key child')
          | Throws => Throws
          | Strays => Strays
          end).
  now rewrite IH.
Qed.

(** C4: the field path of an error is what splitting its data path on "."
    leaves after the first piece, where for a "required" error the data
    path is first extended with "." and the missing property's name; the
    pieces are dot-free and joining them with "." gives the text back.  On
    the two errors of the example the tree has the keys "foo" and "bar",
    each holding the singleton list of its error. *)
Theorem errorsToMap_field_paths :
  (forall error : ErrorObject,
      let text :=
        dataPath error ++
        (if String.eqb (keyword error) "required"
         then "." ++ missingProperty_text (params error) else "") in
      error_path error = skipn 1 (split_dot text)
      /\ exists first,
          join_dot (first :: error_path error) = text
          /\ forallb dot_free (first :: error_path error) = true)
  /\ error_path type_at_foo = ["foo"]
  /\ error_path required_bar = ["bar"]
  /\ errorsToMap [type_at_foo; required_bar]
     = Returns (ERecord [("foo", EList [type_at_foo] []);
                         ("bar", EList [required_bar] [])]).
Proof.
  split; [|repeat split].
  intros error text.
  assert (Hp : error_path error = skipn 1 (split_dot text)) by reflexivity.
  split; [exact Hp|].
  destruct (skipn1_head _ (split_dot text) (split_dot_nonempty text)) as [first Hfirst].
  exists first. rewrite Hp, <- Hfirst. split.
  - apply join_split_dot.
  - apply split_dot_segments.
Qed.

Lemma errorsToMap_app :
  forall pre post,
    errorsToMap (pre ++ post)
    = fold_left reduce_step
        (map (fun error => (error_path error, error)) post)
        (errorsToMap pre).
Proof.
  intros pre post. unfold errorsToMap.
  rewrite map_app, fold_left_app. reflexivity.
Qed.

Lemma error_path_root :
  forall error,
    String.eqb (keyword error) "required" = false ->
    dataPath error = "" ->
    error_path error = [].
Proof.
  intros error Hk Hd. unfold error_path. now rewrite Hk, Hd.
Qed.

(** C10: an error that is not a "required" error and whose data path is the
    empty string has the empty field path, and the tree is the one built
    from the other errors alone. *)
Theorem errorsToMap_drops_root_error :
  forall (pre post : list ErrorObject) (error : ErrorObject),
    String.eqb (keyword error) "required" = false ->
    dataPath error = "" ->
    error_path error = []
    /\ errorsToMap (pre ++ error :: post) = errorsToMap (pre ++ post).
Proof.
  intros pre post error Hk Hd.
  pose proof (error_path_root error Hk Hd) as Hp.
  split; [exact Hp|].
  rewrite !errorsToMap_app.
  cbn [map fold_left reduce_step]. rewrite Hp.
  destruct (errorsToMap pre); reflexivity.
Qed.

Lemma errorsToMap_drops_root_error_witness :
  error_path root_error = []
  /\ errorsToMap ([type_at_foo] ++ root_error :: [required_bar])
     = errorsToMap ([type_at_foo] ++ [required_bar]).
Proof.
  apply (errorsToMap_drops_root_error [type_at_foo] [required_bar] root_error);
    reflexivity.
Defined.

(** *** The part of the tree invariant that always holds *)



Lemma prop_get_forall :
  forall (V : Type) (R : V -> Prop) (o : list (string * V)) (k : string)
         (v : V),
    Forall (fun e => R (snd e)) o -> prop_get o k = Some v -> R v.
Proof.
  intros V R o k v Ho. induction Ho as [|[k' v'] rest Hx _ IH]; cbn.
  - discriminate.
  - destruct (String.eqb k' k); [|exact IH].
    intro E; injection E as <-. exact Hx.
Qed.



Lemma place_cons :
  forall (key key' : string) (rest : list string) (error : ErrorObject)
         (obj : ErrorValue),
    place (key :: key' :: rest) error obj
    = match slot_of obj key with
      | Own child =>
          match place (key' :: rest) error child with
          | Returns child' => Returns (assign obj key child')
          | Throws => Throws
          | Strays => Strays
          end
      | Vacant =>
          match place (key' :: rest) error (ERecord []) with
          | Returns child' => Returns (assign obj key child')
          | Throws => Throws
          | Strays => Strays
          end
      | ZeroLength => Throws
      | Member | ArrayPrototype | Later | Hole => Strays
      end.
Proof. reflexivity. Qed.



(** C1: on the well-formed error list [[minProperties at .a; type at .a.b]]
    the walk for the second error descends into the list stored under "a"
    and stores its own list as a named property of it, so "a" holds a value
    that is an error list and a sub-tree at once; in the other order the
    call throws instead of returning a tree. *)
Theorem errorsToMap_prefix_paths :
  errorsToMap [minProperties_at_a; type_at_a_b]
  = Returns (ERecord [("a", EList [minProperties_at_a]
                              [("b", EList [type_at_a_b] [])])])
  /\ well_shaped (ERecord [("a", EList [minProperties_at_a]
                                  [("b", EList [type_at_a_b] [])])]) = false
  /\ errorsToMap [type_at_a_b; minProperties_at_a] = Throws.
Proof. repeat split. Qed.

(** ** Default-value resolver *)

(** C5: on the example schema the input [null] resolves to
    [{a: "x", b: null}], while the empty mapping, which merely lacks the
    keys, resolves to [{a: undefined, b: undefined}]: the default of [a] is
    not substituted there. *)
Theorem defaultValue_missing_key :
  defaultValue schema_a_b JNull
  = JObject [("a", JString "x"); ("b", JNull)]
  /\ defaultValue schema_a_b (JObject [])
     = JObject [("a", JUndefined); ("b", JUndefined)]
  /\ defaultValue schema_a_b (JObject [("b", JNumber 2)])
     = JObject [("a", JUndefined); ("b", JNumber 2)].
Proof. repeat split. Qed.

(** ** Component resolver *)

(** C2, as stated, fails: with [path = {address: {path: {city: CompB}}}]
    the new [path] is the whole entry [{path: {city: CompB}}], not
    [{city: CompB}]. *)
Lemma repackComponents_keeps_whole_entry :
  path (repackComponents registry_address TObject "address")
  = Some (Nested [("path", Nested [("city", Bare CompB)])])
  /\ path (repackComponents registry_address TObject "address")
     <> Some (Nested [("city", Bare CompB)]).
Proof. split; [reflexivity|discriminate]. Qed.

(** C2, amended: when the entry of [path] at the key is a nested mapping,
    [repackComponents] with type "object" returns the registry with the
    same components per type and with [path] replaced by that entry
    itself. *)
Theorem repackComponents_nested :
  forall (components : FormComponents) (key : string)
         (sub : list (string * PathEntry)),
    pathComponent_of components key = Some (Nested sub) ->
    repackComponents components TObject key
    = {| registered := registered components; path := Some (Nested sub) |}.
Proof.
  intros components key sub H.
  unfold repackComponents, pathComponent_of in *. cbn.
  destruct (path components) as [m|]; [|discriminate].
  now rewrite H.
Qed.

Lemma repackComponents_nested_witness :
  repackComponents registry_address_flat TObject "address"
  = {| registered := registered registry_address_flat;
       path := Some (Nested [("city", Bare CompB)]) |}.
Proof.
  apply (repackComponents_nested registry_address_flat "address"
           [("city", Bare CompB)]).
  reflexivity.
Defined.




(** C8: on the registry of the example, [path = {name: [CompA, {x: 1}]}],
    the pair under "name" resolves to [CompA] and [{x: 1}], and a key that
    finds nothing resolves to the component registered for "object"; but
    the key "constructor", which is absent from [path], finds the member of
    that name that [path] inherits from [Object.prototype], and for type
    "object" [getComponent] returns that member, not the component
    registered for "object". *)
Theorem getComponent_inherited_member :
  prop_get [("name", WithProps CompA [("x", JNumber 1)])] "constructor" = None
  /\ getComponent registry_name TObject "constructor"
     = Some (Inherited "constructor")
  /\ option_map Bare (registered registry_name TObject)
     = Some (Bare ObjectField)
  /\ getComponentProps registry_name TObject "constructor" = []
  /\ getComponent registry_name TObject "name" = Some (Bare CompA)
  /\ getComponentProps registry_name TObject "name" = [("x", JNumber 1)]
  /\ getComponent registry_name TObject "age" = Some (Bare ObjectField).
Proof. repeat split. Qed.

(** ** Value normalizer *)

Lemma normalizeNode_object :
  forall (value : JSONObject) (isRoot : bool),
    normalizeNode (JObject value) isRoot
    = match prop_keys (fold_left normalize_step value []) with
      | _ :: _ => JObject (fold_left normalize_step value [])
      | [] => if isRoot then JObject [] else JNull
      end.
Proof. reflexivity. Qed.

Lemma normalizeValue_object :
  forall value : JSONObject,
    normalizeValue (JObject value) = normalizeObject value true.
Proof. reflexivity. Qed.

(** The root never becomes [null]. *)
Lemma normalizeValue_root_is_object :
  forall value : JSONObject,
    exists obj, normalizeValue (JObject value) = JObject obj.
Proof.
  intro value. rewrite normalizeValue_object.
  unfold normalizeObject. rewrite normalizeNode_object.
  destruct (fold_left normalize_step value []) as [|e obj]; cbn; eauto.
Qed.

Lemma normalize_step_skips :
  forall (obj : JSONObject) (k : string) (inner : JSONObject),
    normalizeObject inner false = JNull ->
    normalize_step obj (k, JObject inner) = obj.
Proof.
  intros obj k inner H. unfold normalize_step. cbn [typeDetect].
  change (normalizeNode (JObject inner) false) with (normalizeObject inner false).
  now rewrite H.
Qed.

Lemma normalize_loop_empty :
  forall inner : JSONObject,
    keys_of (normalizeValue (JObject inner)) = [] ->
    fold_left normalize_step inner [] = [].
Proof.
  intros inner Hk. rewrite normalizeValue_object in Hk.
  unfold normalizeObject in Hk. rewrite normalizeNode_object in Hk.
  destruct (fold_left normalize_step inner []) as [|e obj];
    [reflexivity|discriminate].
Qed.

(** C6: the empty mapping at the root normalizes to the empty mapping, and
    no root mapping normalizes to [null]; a mapping that normalizes to zero
    keys (at the root it gives the empty mapping) gives [null] when nested,
    and a parent drops the key that holds it, wherever the key stands; the
    example [{a: {}, b: {c: 1}}] normalizes to [{b: {c: 1}}]. *)
Theorem normalize_root_and_nested :
  forall (pre post : JSONObject) (k : string) (inner : JSONObject),
    keys_of (normalizeValue (JObject inner)) = [] ->
    normalizeObject inner false = JNull
    /\ normalizeValue (JObject inner) = JObject []
    /\ normalizeValue (JObject (pre ++ (k, JObject inner) :: post))
       = normalizeValue (JObject (pre ++ post))
    /\ (exists obj, normalizeValue (JObject (pre ++ post)) = JObject obj)
    /\ normalizeValue (JObject []) = JObject []
    /\ normalizeObject [] false = JNull
    /\ normalizeValue (JObject [("a", JObject []);
                                ("b", JObject [("c", JNumber 1)])])
       = JObject [("b", JObject [("c", JNumber 1)])].
Proof.
  intros pre post k inner Hk.
  pose proof (normalize_loop_empty inner Hk) as Hloop.
  assert (Hnull : normalizeObject inner false = JNull).
  { unfold normalizeObject. rewrite normalizeNode_object, Hloop.
    reflexivity. }
  split; [exact Hnull|]. split.
  - rewrite normalizeValue_object. unfold normalizeObject.
    rewrite normalizeNode_object, Hloop. reflexivity.
  - split.
    + rewrite !normalizeValue_object. unfold normalizeObject.
      rewrite !normalizeNode_object, !fold_left_app.
      cbn [fold_left]. now rewrite (normalize_step_skips _ k inner Hnull).
    + split; [apply normalizeValue_root_is_object|]. repeat split.
Qed.

Lemma normalize_root_and_nested_witness :
  normalizeObject [("x", JNull); ("y", JObject [("z", JNull)])] false = JNull
  /\ normalizeValue (JObject [("x", JNull); ("y", JObject [("z", JNull)])])
     = JObject []
  /\ normalizeValue
       (JObject ([("n", JNumber 0)]
                 ++ ("a", JObject [("x", JNull);
                                   ("y", JObject [("z", JNull)])])
                 :: [("b", JObject [("c", JNumber 1)])]))
     = normalizeValue
         (JObject ([("n", JNumber 0)] ++ [("b", JObject [("c", JNumber 1)])])).
Proof.
  pose proof (normalize_root_and_nested
                [("n", JNumber 0)] [("b", JObject [("c", JNumber 1)])] "a"
                [("x", JNull); ("y", JObject [("z", JNull)])] eq_refl)
    as (Hnull & Hroot & Hdrop & _).
  exact (conj Hnull (conj Hroot Hdrop)).
Defined.

Lemma JSONSchemaType_nested_ind (P : JSONSchemaType -> Prop) :
  P JUndefined -> P JNull ->
  (forall b, P (JBool b)) -> (forall n, P (JNumber n)) ->
  (forall s, P (JString s)) ->
  (forall items, Forall P items -> P (JArray items)) ->
  (forall props, Forall (fun e => P (snd e)) props -> P (JObject props)) ->
  forall v, P v.
Proof.
  intros Hu Hn Hb Hz Hs Ha Ho.
  refine (fix IH (v : JSONSchemaType) : P v :=
            match v with
            | JUndefined => Hu
            | JNull => Hn
            | JBool b => Hb b
            | JNumber n => Hz n
            | JString s => Hs s
            | JArray items =>
                Ha items
                  ((fix elements (l : list JSONSchemaType) : Forall P l :=
                      match l with
                      | [] => Forall_nil _
                      | x :: xs => Forall_cons x (IH x) (elements xs)
                      end) items)
            | JObject props =>
                Ho props
                  ((fix entries (l : JSONObject)
                      : Forall (fun e => P (snd e)) l :=
                      match l with
                      | [] => Forall_nil _
                      | e :: rest =>
                          Forall_cons e (IH (snd e)) (entries rest)
                      end) props)
            end).
Qed.

Lemma settled_object :
  forall o : JSONObject,
    settled (JObject o) <-> NoDup (prop_keys o) /\ Forall settled_entry o.
Proof.
  intro o. cbn [settled]. split; intros [Hk Hall]; split; trivial.
  - clear Hk. induction o as [|[k x] rest IH]; constructor.
    + apply Hall.
    + apply IH, Hall.
  - clear Hk. induction Hall as [|[k x] rest Hx _ IH]; [exact I|].
    split; [exact Hx|exact IH].
Qed.

(** *** What normalization produces *)

Lemma normalize_step_ok :
  forall (obj : JSONObject) (k : string) (v : JSONSchemaType),
    normalizes_well v -> table_ok obj -> table_ok (normalize_step obj (k, v)).
Proof.
  intros obj k v Hv [Hkeys Hall]. unfold normalize_step.
  set (v' := if String.eqb (typeDetect v) "Object"
             then normalizeNode v false else v).
  assert (Hv' : v' <> JObject [] /\ settled v').
  { subst v'. destruct (Hv false) as [Hs Hne].
    destruct v; cbn [typeDetect String.eqb Ascii.eqb Bool.eqb];
      try (split; [discriminate|exact I]).
    split; [now apply Hne|exact Hs]. }
  destruct (is_null v') eqn:En; cbn [negb]; [now split|].
  split; [now apply prop_set_nodup|].
  apply (prop_set_forall _ (fun x => x <> JNull /\ x <> JObject [] /\ settled x));
    [exact Hall|].
  split; [|exact Hv'].
  intro E; rewrite E in En; discriminate.
Qed.

Lemma normalize_loop_ok :
  forall (value obj : JSONObject),
    Forall (fun e => normalizes_well (snd e)) value ->
    table_ok obj -> table_ok (fold_left normalize_step value obj).
Proof.
  intros value obj Hall. revert obj.
  induction Hall as [|[k v] rest Hv _ IH]; intros obj Hobj; cbn [fold_left].
  - exact Hobj.
  - apply IH. now apply normalize_step_ok.
Qed.

Lemma normalizeNode_settles : forall v : JSONSchemaType, normalizes_well v.
Proof.
  induction v as [| |b|n|s|items _|value IH] using JSONSchemaType_nested_ind;
    intro isRoot; try (split; [exact I|discriminate]).
  rewrite normalizeNode_object.
  assert (Hobj : table_ok (fold_left normalize_step value [])).
  { apply normalize_loop_ok; [exact IH|]. split; constructor. }
  destruct (fold_left normalize_step value []) as [|e obj] eqn:E;
    cbn [prop_keys map].
  - destruct isRoot.
    + split; [|discriminate]. apply settled_object. split; constructor.
    + split; [exact I|discriminate].
  - split; [|discriminate]. now apply settled_object.
Qed.

(** *** Normalization on a stable value *)

Lemma normalize_loop_fixed :
  forall (value obj : JSONObject),
    Forall (fun e => fixed_by_normalize (snd e)) value ->
    Forall settled_entry value ->
    NoDup (prop_keys (obj ++ value)) ->
    fold_left normalize_step value obj = (obj ++ value)%list.
Proof.
  intros value obj Hfix. revert obj.
  induction Hfix as [|[k v] rest Hv _ IH]; intros obj Hall Hkeys;
    cbn [fold_left].
  - now rewrite app_nil_r.
  - inversion Hall as [|? ? [Hnull [Hne Hs]] Hrest]; subst. cbn [snd] in *.
    assert (Hstep : normalize_step obj (k, v) = (obj ++ [(k, v)])%list).
    { unfold normalize_step.
      assert (Hv' : (if String.eqb (typeDetect v) "Object"
                     then normalizeNode v false else v) = v).
      { destruct (String.eqb (typeDetect v) "Object"); [|reflexivity].
        now apply Hv. }
      rewrite Hv'.
      destruct v; try contradiction; cbn [is_null negb];
        apply prop_set_fresh; unfold prop_keys in *;
        rewrite map_app in Hkeys; cbn [map fst] in Hkeys;
        apply NoDup_remove_2 in Hkeys;
        intro Hin; apply Hkeys; apply in_or_app; now left. }
    rewrite Hstep, IH; [now rewrite <- app_assoc|exact Hrest|].
    now rewrite <- app_assoc.
Qed.

Lemma normalizeNode_fixed : forall v : JSONSchemaType, fixed_by_normalize v.
Proof.
  induction v as [| |b|n|s|items _|value IH] using JSONSchemaType_nested_ind;
    intros Hs Hne isRoot; try reflexivity.
  apply settled_object in Hs as [Hkeys Hall].
  rewrite normalizeNode_object.
  rewrite (normalize_loop_fixed value [] IH Hall Hkeys). cbn [app].
  destruct value as [|e rest]; [contradiction|reflexivity].
Qed.

(** * Further properties of the helpers *)

(** ** Distinct keys *)

Lemma existsb_eqb_In :
  forall (k : string) (l : list string),
    existsb (String.eqb k) l = true <-> In k l.
Proof.
  intros k l. rewrite existsb_exists. split.
  - intros [x [Hin Hx]]. apply String.eqb_eq in Hx. now subst.
  - intro Hin. exists k. split; [exact Hin|apply String.eqb_refl].
Qed.

Lemma distinct_NoDup :
  forall l : list string, distinct l = true -> NoDup l.
Proof.
  induction l as [|k rest IH]; cbn; intro H; constructor.
  - apply andb_prop in H as [Hk _]. intro Hin.
    apply existsb_eqb_In in Hin. now rewrite Hin in Hk.
  - apply IH. now apply andb_prop in H as [_ H].
Qed.

Lemma prop_get_not_in :
  forall (V : Type) (o : list (string * V)) (k : string),
    ~ In k (prop_keys o) -> prop_get o k = None.
Proof.
  intros V o k. induction o as [|[k' v] rest IH]; cbn; intro H; [reflexivity|].
  destruct (String.eqb k' k) eqn:E.
  - apply String.eqb_eq in E. exfalso; auto.
  - apply IH; auto.
Qed.

Lemma prop_get_in_keys :
  forall (V : Type) (o : list (string * V)) (k : string) (v : V),
    prop_get o k = Some v -> In k (prop_keys o).
Proof.
  intros V o k v. induction o as [|[k' v'] rest IH]; cbn; [discriminate|].
  destruct (String.eqb k' k) eqn:E.
  - apply String.eqb_eq in E. now left.
  - intro H. right. now apply IH.
Qed.

Lemma prop_get_of_key :
  forall (V : Type) (o : list (string * V)) (k : string),
    In k (prop_keys o) -> prop_get o k <> None.
Proof.
  intros V o k. induction o as [|[k' v] rest IH]; cbn; [contradiction|].
  destruct (String.eqb k' k) eqn:E; [discriminate|].
  intros [H|H]; [|now apply IH].
  subst k'. now rewrite String.eqb_refl in E.
Qed.

Lemma prop_get_NoDup_in :
  forall (V : Type) (o : list (string * V)) (k : string) (v : V),
    NoDup (prop_keys o) -> In (k, v) o -> prop_get o k = Some v.
Proof.
  intros V o k v. induction o as [|[k' v'] rest IH]; cbn; intros Hnd Hin;
    [contradiction|].
  inversion Hnd as [|? ? Hnot Hrest]; subst.
  destruct Hin as [E|Hin].
  - injection E as -> ->. now rewrite String.eqb_refl.
  - destruct (String.eqb k' k) eqn:E; [|now apply IH].
    apply String.eqb_eq in E; subst k'. exfalso. apply Hnot.
    change k with (fst (k, v)). now apply in_map.
Qed.

(** ** Value normalizer *)

Lemma normalize_step_cases :
  forall (obj : JSONObject) (k : string) (v : JSONSchemaType),
    normalize_step obj (k, v)
    = if is_null (normalized_entry v) then obj
      else prop_set k (normalized_entry v) obj.
Proof.
  intros obj k v. unfold normalize_step, normalized_entry.
  now destruct (is_null _).
Qed.

Lemma normalizeValue_table :
  forall o : JSONObject,
    normalizeValue (JObject o) = JObject (fold_left normalize_step o []).
Proof.
  intro o. rewrite normalizeValue_object. unfold normalizeObject.
  rewrite normalizeNode_object.
  now destruct (fold_left normalize_step o []).
Qed.

Lemma normalize_loop_distinct :
  forall (o acc : JSONObject),
    NoDup (prop_keys (acc ++ o)) ->
    fold_left normalize_step o acc = (acc ++ flat_map kept_entry o)%list.
Proof.
  induction o as [|[k v] rest IH]; intros acc Hnd; cbn [fold_left flat_map].
  - now rewrite app_nil_r.
  - rewrite normalize_step_cases. unfold kept_entry at 1. cbn [fst snd].
    unfold prop_keys in Hnd. rewrite map_app in Hnd. cbn [map fst] in Hnd.
    destruct (is_null (normalized_entry v)).
    + apply IH. unfold prop_keys. rewrite map_app.
      now apply NoDup_remove_1 in Hnd.
    + rewrite prop_set_fresh.
      * rewrite IH; [now rewrite <- app_assoc|].
        unfold prop_keys. rewrite !map_app. cbn [map fst].
        now rewrite <- app_assoc.
      * apply NoDup_remove_2 in Hnd. intro Hin. apply Hnd.
        apply in_or_app. now left.
Qed.

Lemma kept_entries_keys :
  forall (o : JSONObject) (k : string),
    In k (prop_keys (flat_map kept_entry o)) -> In k (prop_keys o).
Proof.
  induction o as [|[k0 v0] rest IH]; intros k; cbn [flat_map]; [auto|].
  unfold prop_keys. rewrite map_app. intro H.
  apply in_app_or in H as [H|H].
  - unfold kept_entry in H. cbn [fst snd] in H.
    destruct (is_null (normalized_entry v0)); [contradiction|].
    destruct H as [<-|[]]. now left.
  - right. now apply IH.
Qed.

Lemma kept_entries_get :
  forall (o : JSONObject) (k : string),
    NoDup (prop_keys o) ->
    prop_get (flat_map kept_entry o) k
    = match prop_get o k with
      | Some v =>
          if is_null (normalized_entry v) then None
          else Some (normalized_entry v)
      | None => None
      end.
Proof.
  induction o as [|[k0 v0] rest IH]; intros k Hnd; [reflexivity|].
  inversion Hnd as [|? ? Hnot Hrest]; subst.
  cbn [flat_map prop_get]. unfold kept_entry at 1. cbn [fst snd].
  destruct (String.eqb k0 k) eqn:E.
  - apply String.eqb_eq in E; subst k0.
    destruct (is_null (normalized_entry v0)); cbn [app prop_get].
    + apply prop_get_not_in. intro Hin. apply Hnot.
      now apply kept_entries_keys.
    + now rewrite String.eqb_refl.
  - destruct (is_null (normalized_entry v0)); cbn [app prop_get];
      [|rewrite E]; now apply IH.
Qed.

(** X1: the result of [normalizeValue] is stable: at every depth reached
    through mappings its keys are pairwise distinct and no entry is [null]
    or an empty mapping. *)
Theorem normalizeValue_settled :
  forall v : JSONSchemaType, settled (normalizeValue v).
Proof.
  intros [| |b|n|s|items|o]; try exact I.
  rewrite normalizeValue_object.
  apply (normalizeNode_settles (JObject o) true).
Qed.

(** X2: among the values none of whose mappings has a key ["__proto__"],
    those that [normalizeValue] returns unchanged are exactly the stable
    ones. *)
Theorem normalizeValue_fixed_points :
  forall v : JSONSchemaType,
    proto_free v = true ->
    (normalizeValue v = v <-> settled v).
Proof.
  intros v _. split.
  - intro H. rewrite <- H. destruct v; try exact I.
    rewrite normalizeValue_object.
    apply (normalizeNode_settles (JObject props) true).
  - destruct v as [| |b|n|s|items|o]; try reflexivity.
    intro Hs. destruct o as [|e rest]; [reflexivity|].
    rewrite normalizeValue_object. unfold normalizeObject.
    apply normalizeNode_fixed; [exact Hs|discriminate].
Qed.

Lemma normalizeValue_fixed_points_witness :
  normalizeValue (JObject [("n", JNumber 0); ("list", JArray [JNull])])
  = JObject [("n", JNumber 0); ("list", JArray [JNull])].
Proof.
  apply (proj2 (normalizeValue_fixed_points
                  (JObject [("n", JNumber 0); ("list", JArray [JNull])])
                  eq_refl)).
  cbn. split.
  - repeat constructor; cbn; intuition discriminate.
  - repeat split; discriminate.
Defined.

(** X23: on a value none of whose mappings has a key ["__proto__"],
    [normalizeValue] is idempotent: normalizing the result gives the
    result back. *)
Theorem normalizeValue_idempotent_proto_free :
  forall value : JSONSchemaType,
    proto_free value = true ->
    normalizeValue (normalizeValue value) = normalizeValue value.
Proof.
  intros [| |b|n|s|items|o] _; try reflexivity.
  destruct (normalizeValue_root_is_object o) as [obj Hobj].
  rewrite Hobj. destruct obj as [|e rest]; [reflexivity|].
  rewrite normalizeValue_object. unfold normalizeObject.
  apply normalizeNode_fixed; [|discriminate].
  rewrite <- Hobj, normalizeValue_object.
  apply (normalizeNode_settles (JObject o) true).
Qed.

Lemma normalizeValue_idempotent_proto_free_witness :
  normalizeValue (normalizeValue (JObject mixed_mapping))
  = normalizeValue (JObject mixed_mapping).
Proof.
  apply (normalizeValue_idempotent_proto_free (JObject mixed_mapping)).
  reflexivity.
Defined.

(** X4: on a mapping with pairwise distinct keys, none of whose mappings
    has a key ["__proto__"], reading a key that names no member of
    [Object.prototype] from the result of [normalizeValue] gives the
    normalized value of the entry, or [undefined] when that is [null] or
    the key is missing.  So an entry that is neither [null] nor a mapping
    is kept as it is ([undefined], arrays and falsy primitives included),
    and a [null] entry loses its key. *)
Theorem normalizeValue_lookup :
  forall (o : JSONObject) (k : string),
    distinct (prop_keys o) = true ->
    proto_free (JObject o) = true ->
    name_in k object_prototype_names = false ->
    member (normalizeValue (JObject o)) k
    = match prop_get o k with
      | Some v =>
          if is_null (normalized_entry v) then JUndefined
          else normalized_entry v
      | None => JUndefined
      end
    /\ (forall v,
          prop_get o k = Some v ->
          String.eqb (typeDetect v) "Object" = false ->
          is_null v = false ->
          prop_get (match normalizeValue (JObject o) with
                    | JObject r => r
                    | _ => []
                    end) k = Some v)
    /\ (prop_get o k = Some JNull ->
        ~ In k (keys_of (normalizeValue (JObject o)))).
Proof.
  intros o k Hd _ _. apply distinct_NoDup in Hd.
  rewrite normalizeValue_table.
  rewrite (normalize_loop_distinct o [] Hd). cbn [app member keys_of].
  rewrite (kept_entries_get o k Hd).
  split; [|split].
  - destruct (prop_get o k) as [v|]; [|reflexivity].
    now destruct (is_null (normalized_entry v)).
  - intros v Hv Ht Hn. rewrite Hv. unfold normalized_entry.
    now rewrite Ht, Hn.
  - intros Hv Hin.
    pose proof (kept_entries_get o k Hd) as Hg. rewrite Hv in Hg.
    cbn in Hg. now apply prop_get_of_key in Hin.
Qed.

Lemma normalizeValue_lookup_witness :
  member (normalizeValue (JObject mixed_mapping)) "list"
  = JArray [JNull; JObject []]
  /\ member (normalizeValue (JObject mixed_mapping)) "empty" = JUndefined.
Proof.
  split.
  - exact (proj1 (normalizeValue_lookup mixed_mapping "list"
                    eq_refl eq_refl eq_refl)).
  - exact (proj1 (normalizeValue_lookup mixed_mapping "empty"
                    eq_refl eq_refl eq_refl)).
Defined.

(** ** Default-value resolver *)

(** Induction on schemas, with the hypothesis for every property. *)
Lemma JSONSchema_nested_ind (P : JSONSchema -> Prop) :
  (forall b, P (SBool b)) ->
  (forall t d, P (SNode t d None)) ->
  (forall t d ps, Forall (fun e => P (snd e)) ps -> P (SNode t d (Some ps))) ->
  forall s, P s.
Proof.
  intros Hb Hn Hs.
  refine (fix IH (s : JSONSchema) : P s :=
            match s with
            | SBool b => Hb b
            | SNode t d None => Hn t d
            | SNode t d (Some ps) =>
                Hs t d ps
                  ((fix entries (l : list (string * JSONSchema))
                      : Forall (fun e => P (snd e)) l :=
                      match l with
                      | [] => Forall_nil _
                      | e :: rest =>
                          Forall_cons e (IH (snd e)) (entries rest)
                      end) ps)
            end).
Qed.

Lemma schema_wf_properties :
  forall t d ps,
    schema_wf (SNode t d (Some ps)) = true ->
    distinct (prop_keys ps) = true
    /\ Forall (fun e => schema_wf (snd e) = true) ps.
Proof.
  intros t d ps H. cbn [schema_wf] in H.
  apply andb_prop in H as [Hd Hall]. split; [exact Hd|].
  clear Hd. induction ps as [|[k p] rest IH]; constructor.
  - now apply andb_prop in Hall as [Hp _].
  - apply IH. now apply andb_prop in Hall as [_ Hrest].
Qed.

Lemma default_loop_fold :
  forall resolve ps value,
    objectDefaultValue_loop resolve (Some ps) value
    = fold_left (default_step resolve value) ps [].
Proof. reflexivity. Qed.

Lemma default_loop_distinct :
  forall resolve value (ps : list (string * JSONSchema)) (acc : JSONObject),
    NoDup (prop_keys acc ++ prop_keys ps) ->
    fold_left (default_step resolve value) ps acc
    = (acc ++ map (resolved_entry resolve value) (filter is_node_entry ps))%list.
Proof.
  intros resolve value.
  induction ps as [|[k p] rest IH]; intros acc Hnd; cbn [fold_left].
  - cbn. now rewrite app_nil_r.
  - cbn [prop_keys map fst] in Hnd.
    cbn [filter]. unfold is_node_entry at 1. cbn [snd default_step].
    destruct p as [b|t d props].
    + apply IH. now apply NoDup_remove_1 in Hnd.
    + assert (Hfresh : ~ In k (prop_keys acc)).
      { apply NoDup_remove_2 in Hnd. intro Hin. apply Hnd.
        apply in_or_app. now left. }
      rewrite (prop_set_fresh _ k _ acc Hfresh).
      rewrite IH.
      * cbn [map]. unfold resolved_entry at 2. cbn [fst snd].
        now rewrite <- app_assoc.
      * unfold prop_keys at 1. rewrite map_app. cbn [map fst].
        now rewrite <- app_assoc.
Qed.

Lemma defaultValue_object_table :
  forall d ps v,
    distinct (prop_keys ps) = true ->
    defaultValue (SNode (TypeName TObject) d (Some ps)) v
    = JObject (map (resolved_entry defaultValue (substituted d v))
                   (filter is_node_entry ps)).
Proof.
  intros d ps v Hd. apply distinct_NoDup in Hd.
  cbn [defaultValue]. fold (substituted d v).
  rewrite default_loop_fold.
  now rewrite (default_loop_distinct defaultValue (substituted d v) ps []).
Qed.

Lemma resolved_keys :
  forall resolve value (l : list (string * JSONSchema)),
    prop_keys (map (resolved_entry resolve value) l) = prop_keys l.
Proof.
  intros resolve value l. unfold prop_keys. rewrite map_map.
  now apply map_ext.
Qed.

Lemma filter_keys_NoDup :
  forall (V : Type) (f : string * V -> bool) (l : list (string * V)),
    NoDup (prop_keys l) -> NoDup (prop_keys (filter f l)).
Proof.
  intros V f l. induction l as [|[k v] rest IH]; cbn; intro H; [constructor|].
  inversion H as [|? ? Hnot Hrest]; subst.
  destruct (f (k, v)); cbn; [|now apply IH].
  constructor; [|now apply IH].
  intro Hin. apply Hnot. unfold prop_keys in *.
  apply in_map_iff in Hin as [[k' v'] [E Hin]]. cbn in E; subst k'.
  apply filter_In in Hin as [Hin _].
  change k with (fst (k, v')). now apply in_map.
Qed.

(** X5: for an object schema [defaultValue] always returns a mapping, also
    for a [null] value and for a schema without [properties]; when the keys
    of [properties] are pairwise distinct and none of the resolved ones is
    ["__proto__"], the keys of the result are the declared keys whose
    sub-schema is not a boolean, in the order of declaration, whatever the
    value holds. *)
Theorem defaultValue_object_keys :
  forall (d : JSONSchemaType)
         (properties : option (list (string * JSONSchema)))
         (v : JSONSchemaType),
    typeDetect (defaultValue (SNode (TypeName TObject) d properties) v)
    = "Object"
    /\ (properties = None ->
        defaultValue (SNode (TypeName TObject) d properties) v = JObject [])
    /\ (forall ps,
          properties = Some ps ->
          distinct (prop_keys ps) = true ->
          name_in "__proto__" (declared_keys ps) = false ->
          keys_of (defaultValue (SNode (TypeName TObject) d properties) v)
          = declared_keys ps).
Proof.
  intros d properties v. split; [reflexivity|]. split.
  - intros ->. reflexivity.
  - intros ps -> Hd _. rewrite defaultValue_object_table by exact Hd.
    cbn [keys_of]. apply resolved_keys.
Qed.

Lemma defaultValue_object_keys_witness :
  keys_of (defaultValue schema_with_boolean
             (JObject [("zip", JString "1"); ("b", JNumber 2)]))
  = ["a"; "tags"; "b"].
Proof.
  exact (proj2 (proj2 (defaultValue_object_keys JUndefined
                         (Some properties_with_boolean)
                         (JObject [("zip", JString "1"); ("b", JNumber 2)])))
           properties_with_boolean eq_refl eq_refl eq_refl).
Defined.

Lemma defaultValue_member :
  forall (d : JSONSchemaType) (ps : list (string * JSONSchema))
         (v : JSONSchemaType) (k : string) (p : JSONSchema),
    distinct (prop_keys ps) = true ->
    In (k, p) ps -> is_node_entry (k, p) = true ->
    member (defaultValue (SNode (TypeName TObject) d (Some ps)) v) k
    = defaultValue p (item_of (substituted d v) k).
Proof.
  intros d ps v k p Hd Hin Hnode.
  rewrite defaultValue_object_table by exact Hd.
  apply distinct_NoDup in Hd. cbn [member].
  rewrite (prop_get_NoDup_in _
             (map (resolved_entry defaultValue (substituted d v))
                  (filter is_node_entry ps)) k
             (defaultValue p (item_of (substituted d v) k))); [reflexivity| |].
  - rewrite resolved_keys. now apply filter_keys_NoDup.
  - change (k, defaultValue p (item_of (substituted d v) k))
      with (resolved_entry defaultValue (substituted d v) (k, p)).
    apply in_map. apply filter_In. now split.
Qed.

(** X6: for a call of [defaultValue] on an object schema whose
    [properties] have pairwise distinct keys, in which every property read
    is a read of a mapping and no resolved property is named like a member
    of [Object.prototype]: the result holds under each declared key with a
    non-boolean sub-schema what [defaultValue] gives for that sub-schema
    and the sub-value, and any other key that names no member of
    [Object.prototype] reads as [undefined], even when the value has
    it. *)
Theorem defaultValue_object_lookup :
  forall (d : JSONSchemaType) (ps : list (string * JSONSchema))
         (v : JSONSchemaType) (k : string),
    distinct (prop_keys ps) = true ->
    own_reads (SNode (TypeName TObject) d (Some ps)) v = true ->
    name_in k object_prototype_names = false ->
    (forall p,
        In (k, p) ps -> is_node_entry (k, p) = true ->
        member (defaultValue (SNode (TypeName TObject) d (Some ps)) v) k
        = defaultValue p (item_of (substituted d v) k))
    /\ (~ In k (declared_keys ps) ->
        member (defaultValue (SNode (TypeName TObject) d (Some ps)) v) k
        = JUndefined).
Proof.
  intros d ps v k Hd _ _. split.
  - intros p Hin Hnode. now apply defaultValue_member.
  - intro Hnot. rewrite defaultValue_object_table by exact Hd.
    cbn [member]. rewrite prop_get_not_in; [reflexivity|].
    now rewrite resolved_keys.
Qed.

Lemma defaultValue_object_lookup_witness :
  member (defaultValue schema_with_boolean JNull) "a" = JString "x"
  /\ member (defaultValue schema_with_boolean
               (JObject [("zip", JString "1")])) "zip" = JUndefined.
Proof.
  split.
  - apply (proj1 (defaultValue_object_lookup JUndefined
                    properties_with_boolean JNull "a"
                    eq_refl eq_refl eq_refl)
             (SNode (TypeName TString) (JString "x") None)).
    + left; reflexivity.
    + reflexivity.
  - apply (proj2 (defaultValue_object_lookup JUndefined
                    properties_with_boolean
                    (JObject [("zip", JString "1")]) "zip"
                    eq_refl eq_refl eq_refl)).
    cbn. intros [H|[H|[H|[]]]]; discriminate.
Defined.

(** X7: for an array schema [defaultValue] never returns a falsy value
    ([null], [undefined], [false], 0 or the empty string become the empty
    array), and an array is returned as it is, its items untouched. *)
Theorem defaultValue_array :
  forall (d : JSONSchemaType)
         (properties : option (list (string * JSONSchema)))
         (v : JSONSchemaType),
    truthy (defaultValue (SNode (TypeName TArray) d properties) v) = true
    /\ (truthy (substituted d v) = false ->
        defaultValue (SNode (TypeName TArray) d properties) v = JArray [])
    /\ (forall items,
          defaultValue (SNode (TypeName TArray) d properties) (JArray items)
          = JArray items).
Proof.
  intros d properties v. cbn [defaultValue]. fold (substituted d v).
  split; [|split].
  - now destruct (truthy (substituted d v)) eqn:E.
  - intro E. now rewrite E.
  - reflexivity.
Qed.

Lemma defaultValue_array_witness :
  defaultValue (SNode (TypeName TArray) JUndefined None) (JNumber 0)
  = JArray [].
Proof.
  apply (proj1 (proj2 (defaultValue_array JUndefined None (JNumber 0)))).
  reflexivity.
Defined.

Lemma substituted_twice :
  forall d v : JSONSchemaType,
    substituted d (substituted d v) = substituted d v.
Proof.
  intros d v. unfold substituted.
  destruct (is_null v && negb (is_undefined d)) eqn:E.
  - now destruct (is_null d && negb (is_undefined d)).
  - now rewrite E.
Qed.

Lemma substituted_truthy :
  forall d v : JSONSchemaType, truthy v = true -> substituted d v = v.
Proof.
  intros d v H. unfold substituted. now destruct v.
Qed.

(** X8: on a schema whose [properties] tables have pairwise distinct keys
    at every depth, [defaultValue] is idempotent: resolving a resolved
    value changes nothing. *)
Theorem defaultValue_idempotent :
  forall schema : JSONSchema,
    schema_wf schema = true ->
    forall v : JSONSchemaType,
      defaultValue schema (defaultValue schema v) = defaultValue schema v.
Proof.
  induction schema as [b|t d|t d ps IH] using JSONSchema_nested_ind;
    intros Hwf v.
  - reflexivity.
  - cbn [defaultValue]. fold (substituted d v).
    destruct t as [|[]|]; cbn [objectDefaultValue_loop];
      try reflexivity;
      try (fold (substituted d (substituted d v));
           now rewrite substituted_twice).
    destruct (truthy (substituted d v)) eqn:E.
    + fold (substituted d (substituted d v)).
      now rewrite substituted_twice, E.
    + reflexivity.
  - destruct (schema_wf_properties t d ps Hwf) as [Hd Hall].
    assert (Hother :
      forall r, r = substituted d v ->
        substituted d r = r) by (intros r ->; apply substituted_twice).
    destruct t as [|[]|];
      try (cbn [defaultValue]; fold (substituted d v);
           fold (substituted d (substituted d v));
           now rewrite substituted_twice).
    + rewrite !defaultValue_object_table by exact Hd.
      f_equal. apply map_ext_in. intros [k p] Hin.
      unfold resolved_entry. cbn [fst snd]. f_equal.
      rewrite substituted_truthy by reflexivity.
      unfold item_of at 1. cbn [truthy member].
      change (fun entry : string * JSONSchema =>
                (fst entry,
                 defaultValue (snd entry)
                   (item_of (substituted d v) (fst entry))))
        with (resolved_entry defaultValue (substituted d v)).
      rewrite (prop_get_NoDup_in _
                 (map (resolved_entry defaultValue (substituted d v))
                      (filter is_node_entry ps)) k
                 (defaultValue p (item_of (substituted d v) k))).
      * apply filter_In in Hin as [Hin _].
        rewrite Forall_forall in IH, Hall.
        apply (IH (k, p) Hin). now apply (Hall (k, p)).
      * rewrite resolved_keys. apply filter_keys_NoDup.
        now apply distinct_NoDup.
      * change (k, defaultValue p (item_of (substituted d v) k))
          with (resolved_entry defaultValue (substituted d v) (k, p)).
        now apply in_map.
    + cbn [defaultValue]. fold (substituted d v).
      destruct (truthy (substituted d v)) eqn:E.
      * fold (substituted d (substituted d v)).
        now rewrite substituted_twice, E.
      * reflexivity.
Qed.

Lemma defaultValue_idempotent_witness :
  defaultValue schema_with_boolean
    (defaultValue schema_with_boolean (JObject [("b", JNull)]))
  = defaultValue schema_with_boolean (JObject [("b", JNull)]).
Proof.
  apply (defaultValue_idempotent schema_with_boolean). reflexivity.
Defined.

(** X21: for an object schema whose [properties] have pairwise distinct
    keys, an entry of the value that is not [null], under a declared key
    other than ["__proto__"] whose sub-schema has a type other than
    "object" and "array", is kept as it is: a default never replaces a
    value that is present. *)
Theorem defaultValue_keeps_entry :
  forall (d : JSONSchemaType) (ps : list (string * JSONSchema))
         (o : JSONObject) (k : string)
         (t' : SchemaTypeField) (d' : JSONSchemaType)
         (ps' : option (list (string * JSONSchema))) (x : JSONSchemaType),
    distinct (prop_keys ps) = true ->
    String.eqb k "__proto__" = false ->
    In (k, SNode t' d' ps') ps ->
    t' <> TypeName TObject -> t' <> TypeName TArray ->
    prop_get o k = Some x ->
    is_null x = false ->
    member (defaultValue (SNode (TypeName TObject) d (Some ps)) (JObject o)) k
    = x.
Proof.
  intros d ps o k t' d' ps' x Hd _ Hin Hobj Harr Hget Hnull.
  rewrite (defaultValue_member d ps (JObject o) k (SNode t' d' ps') Hd Hin)
    by reflexivity.
  unfold substituted at 1. cbn [is_null andb].
  unfold item_of. cbn [truthy member]. rewrite Hget.
  cbn [defaultValue]. rewrite Hnull. cbn [andb].
  destruct t' as [|[]|]; try reflexivity; contradiction.
Qed.

Lemma defaultValue_keeps_entry_witness :
  member (defaultValue schema_with_boolean (JObject [("a", JString "")])) "a"
  = JString "".
Proof.
  apply (defaultValue_keeps_entry JUndefined properties_with_boolean
           [("a", JString "")] "a" (TypeName TString) (JString "x") None
           (JString "")).
  - reflexivity.
  - reflexivity.
  - left; reflexivity.
  - discriminate.
  - discriminate.
  - reflexivity.
  - reflexivity.
Defined.

(** ** Field paths *)

Lemma split_dot_app_dot :
  forall a b : string,
    split_dot (a ++ "." ++ b) = (split_dot a ++ split_dot b)%list.
Proof.
  induction a as [|c a' IH]; intro b; [reflexivity|].
  cbn [String.append split_dot].
  change (a' ++ String "." b) with (a' ++ "." ++ b). rewrite IH.
  destruct (Ascii.eqb c "."); [reflexivity|].
  pose proof (split_dot_nonempty a') as Hne.
  now destruct (split_dot a').
Qed.

Lemma split_dot_dot_free :
  forall s : string, dot_free s = true -> split_dot s = [s].
Proof.
  induction s as [|c rest IH]; [reflexivity|].
  cbn [dot_free split_dot]. intro H. apply andb_prop in H as [Hc Hrest].
  apply negb_true_iff in Hc. rewrite Hc, (IH Hrest). reflexivity.
Qed.

Lemma split_join_dot :
  forall segs : list string,
    segs <> [] -> forallb dot_free segs = true ->
    split_dot (join_dot segs) = segs.
Proof.
  induction segs as [|seg rest IH]; intros Hne Hfree; [contradiction|].
  cbn [forallb] in Hfree. apply andb_prop in Hfree as [Hseg Hrest].
  destruct rest as [|seg' rest'].
  - now apply split_dot_dot_free.
  - rewrite join_dot_cons by discriminate.
    rewrite split_dot_app_dot, (split_dot_dot_free seg Hseg).
    rewrite IH; [reflexivity|discriminate|exact Hrest].
Qed.

Lemma append_empty_r : forall s : string, s ++ "" = s.
Proof.
  induction s as [|c s IH]; [reflexivity|]. cbn. now rewrite IH.
Qed.




(** X10: for an error that is not a "required" error and whose data path
    is "." followed by dot-free segments joined with ".", the field path is
    that list of segments. *)
Theorem error_path_of_segments :
  forall (error : ErrorObject) (segs : list string),
    String.eqb (keyword error) "required" = false ->
    segs <> [] ->
    forallb dot_free segs = true ->
    dataPath error = "." ++ join_dot segs ->
    error_path error = segs.
Proof.
  intros error segs Hk Hne Hfree Hd.
  unfold error_path. rewrite Hk, Hd, append_empty_r.
  change ("." ++ join_dot segs) with ("" ++ "." ++ join_dot segs).
  rewrite split_dot_app_dot, (split_join_dot segs Hne Hfree). reflexivity.
Qed.

Lemma error_path_of_segments_witness :
  error_path minLength_at_name = ["user"; "name"].
Proof.
  apply (error_path_of_segments minLength_at_name ["user"; "name"]);
    [reflexivity|discriminate|reflexivity|reflexivity].
Defined.

(** ** Error reshaper: the walk on own properties *)

Lemma errorsToMap_own_fold :
  forall errors : list ErrorObject,
    errorsToMap_own errors
    = fold_left reduce_step_own
        (map (fun error => (error_path error, error)) errors)
        (Returns (ERecord [])).
Proof. reflexivity. Qed.

Lemma errorsToMap_own_app :
  forall pre post,
    errorsToMap_own (pre ++ post)
    = fold_left reduce_step_own
        (map (fun error => (error_path error, error)) post)
        (errorsToMap_own pre).
Proof.
  intros pre post. unfold errorsToMap_own.
  rewrite map_app, fold_left_app. reflexivity.
Qed.

Lemma place_own_step :
  forall (key key' : string) (rest : list string) (error : ErrorObject)
         (obj : ErrorValue),
    place_own (key :: key' :: rest) error obj
    = match place_own (key' :: rest) error
              (match prop_get (own_props obj) key with
               | Some c => c
               | None => ERecord []
               end) with
      | Returns child' => Returns (assign obj key child')
      | Throws => Throws
      | Strays => Strays
      end.
Proof. reflexivity. Qed.

Lemma place_own_in_empty_record_list :
  forall (segments : list string) (error : ErrorObject),
    place_own segments error (ERecord [])
    = Returns (path_list_tree segments [error]).
Proof.
  intros segments error.
  induction segments as [|key rest IH]; [reflexivity|].
  destruct rest as [|key' rest']; [reflexivity|].
  rewrite place_own_step. cbn [own_props prop_get]. now rewrite IH.
Qed.

Lemma place_own_same_path :
  forall (segments : list string) (error : ErrorObject)
         (items : list ErrorObject),
    segments <> [] ->
    place_own segments error (path_list_tree segments items)
    = Returns (path_list_tree segments (items ++ [error])).
Proof.
  intros segments error items.
  induction segments as [|key rest IH]; intro Hne; [contradiction|].
  destruct rest as [|key' rest'].
  - cbn [place_own path_list_tree own_props prop_get].
    rewrite String.eqb_refl. cbn [prop_get].
    unfold assign. cbn [own_props with_props prop_set].
    now rewrite String.eqb_refl.
  - rewrite place_own_step.
    change (path_list_tree (key :: key' :: rest') items)
      with (ERecord [(key, path_list_tree (key' :: rest') items)]).
    cbn [own_props prop_get]. rewrite String.eqb_refl.
    rewrite IH by discriminate.
    unfold assign. cbn [own_props with_props prop_set].
    now rewrite String.eqb_refl.
Qed.

Lemma errorsToMap_own_same_path :
  forall (segments : list string) (first : ErrorObject)
         (others : list ErrorObject),
    segments <> [] ->
    Forall (fun error => error_path error = segments) (first :: others) ->
    errorsToMap_own (first :: others)
    = Returns (path_list_tree segments (first :: others)).
Proof.
  intros segments first others Hne Hall.
  apply Forall_cons_iff in Hall as [Hfirst Hothers].
  rewrite errorsToMap_own_fold. cbn [map fold_left reduce_step_own].
  rewrite Hfirst, place_own_in_empty_record_list.
  change (first :: others) with ([first] ++ others)%list.
  generalize [first] as items. clear Hfirst.
  induction Hothers as [|error rest Hp _ IH]; intro items;
    cbn [map fold_left].
  - now rewrite app_nil_r.
  - cbn [reduce_step_own]. rewrite Hp, (place_own_same_path _ _ _ Hne).
    rewrite IH. now rewrite <- app_assoc.
Qed.

(** *** Paths of which none is a proper prefix of another *)

(** Induction on error values, with the hypothesis for every named
    property. *)
Lemma ErrorValue_nested_ind (P : ErrorValue -> Prop) :
  (forall props, Forall (fun e => P (snd e)) props -> P (ERecord props)) ->
  (forall items props,
      Forall (fun e => P (snd e)) props -> P (EList items props)) ->
  forall v, P v.
Proof.
  intros Hr Hl.
  refine (fix IH (v : ErrorValue) : P v :=
            let entries :=
              fix entries (l : list (string * ErrorValue))
                : Forall (fun e => P (snd e)) l :=
                match l with
                | [] => Forall_nil _
                | e :: rest => Forall_cons e (IH (snd e)) (entries rest)
                end in
            match v with
            | ERecord props => Hr props (entries props)
            | EList items props => Hl items props (entries props)
            end).
Qed.

Lemma tidy_record :
  forall props : list (string * ErrorValue),
    tidy (ERecord props)
    <-> props <> [] /\ Forall (fun e => tidy (snd e)) props.
Proof.
  intro props. cbn [tidy]. split; intros [Hne Hall]; split; trivial.
  - clear Hne. induction props as [|[k c] rest IH]; constructor.
    + apply Hall.
    + apply IH, Hall.
  - clear Hne. induction Hall as [|[k c] rest Hc _ IH]; [exact I|].
    split; assumption.
Qed.

Lemma well_shaped_record :
  forall props : list (string * ErrorValue),
    well_shaped (ERecord props)
    = forallb (fun e => well_shaped (snd e)) props.
Proof.
  intro props. cbn [well_shaped].
  induction props as [|[k c] rest IH]; [reflexivity|].
  cbn [forallb snd]. now rewrite IH.
Qed.

Lemma tidy_children_well_shaped :
  forall props : list (string * ErrorValue),
    Forall (fun e => tidy (snd e) -> well_shaped (snd e) = true) props ->
    Forall (fun e => tidy (snd e)) props ->
    well_shaped (ERecord props) = true.
Proof.
  intros props IH Hall. rewrite well_shaped_record.
  apply forallb_forall. intros e Hin.
  rewrite Forall_forall in IH, Hall. now apply IH, Hall.
Qed.

Lemma tidy_well_shaped :
  forall v : ErrorValue, tidy v -> well_shaped v = true.
Proof.
  induction v as [props IH|items props _] using ErrorValue_nested_ind.
  - intro H. apply tidy_record in H as [_ Hall].
    now apply tidy_children_well_shaped.
  - intros [Hne ->]. now destruct items.
Qed.

Lemma tidy_has_leaf :
  forall v : ErrorValue,
    tidy v -> is_list v = false -> exists q, has_leaf q v.
Proof.
  induction v as [ps IH|items ps _] using ErrorValue_nested_ind;
    [|discriminate].
  intros Ht _. apply tidy_record in Ht as [Hne Hall].
  destruct ps as [|[k c] rest]; [contradiction|].
  apply Forall_inv in IH. apply Forall_inv in Hall. cbn [snd] in *.
  destruct c as [cps|items cps].
  - destruct (IH Hall eq_refl) as [q Hq].
    exists (k :: q). cbn [has_leaf own_props prop_get].
    rewrite String.eqb_refl.
    destruct q as [|k' q']; [contradiction|exact Hq].
  - exists [k]. cbn [has_leaf own_props prop_get].
    now rewrite String.eqb_refl.
Qed.

Lemma prop_get_set_same :
  forall (V : Type) (k : string) (v : V) (o : list (string * V)),
    prop_get (prop_set k v o) k = Some v.
Proof.
  intros V k v o. induction o as [|[k' v'] rest IH]; cbn.
  - now rewrite String.eqb_refl.
  - destruct (String.eqb k' k) eqn:E; cbn; now rewrite E.
Qed.

Lemma prop_get_set_other :
  forall (V : Type) (k k' : string) (v : V) (o : list (string * V)),
    k <> k' -> prop_get (prop_set k v o) k' = prop_get o k'.
Proof.
  intros V k k' v o Hne. induction o as [|[k0 v0] rest IH]; cbn.
  - destruct (String.eqb k k') eqn:E; [|reflexivity].
    now apply String.eqb_eq in E.
  - destruct (String.eqb k0 k) eqn:E; cbn.
    + apply String.eqb_eq in E; subst k0.
      destruct (String.eqb k k') eqn:E'; [|reflexivity].
      now apply String.eqb_eq in E'.
    + now rewrite IH.
Qed.

Lemma prop_set_nonempty :
  forall (V : Type) (k : string) (v : V) (o : list (string * V)),
    prop_set k v o <> [].
Proof.
  intros V k v [|[k' v'] rest]; cbn; [discriminate|].
  destruct (String.eqb k' k); discriminate.
Qed.

Lemma proper_prefix_cons :
  forall (k : string) (p q : list string),
    proper_prefix (k :: p) (k :: q) = proper_prefix p q.
Proof.
  intros k p q. unfold proper_prefix. cbn [is_prefix length].
  now rewrite String.eqb_refl.
Qed.

Lemma proper_prefix_single :
  forall (k k' : string) (q : list string),
    proper_prefix [k] (k :: k' :: q) = true.
Proof.
  intros k k' q. unfold proper_prefix. cbn [is_prefix length].
  now rewrite String.eqb_refl.
Qed.

Lemma own_props_assign :
  forall (obj : ErrorValue) (k : string) (c : ErrorValue),
    own_props (assign obj k c) = prop_set k c (own_props obj)
    /\ is_list (assign obj k c) = is_list obj.
Proof. intros [ps|items ps] k c; split; reflexivity. Qed.

Lemma has_leaf_assign :
  forall (obj : ErrorValue) (k : string) (c : ErrorValue)
         (k1 : string) (rest : list string),
    has_leaf (k1 :: rest) (assign obj k c)
    <-> (if String.eqb k k1
         then match rest with
              | [] => is_list c = true
              | _ :: _ => has_leaf rest c
              end
         else has_leaf (k1 :: rest) obj).
Proof.
  intros obj k c k1 rest. cbn [has_leaf].
  rewrite (proj1 (own_props_assign obj k c)).
  destruct (String.eqb k k1) eqn:E.
  - apply String.eqb_eq in E; subst k1. now rewrite prop_get_set_same.
  - apply String.eqb_neq in E. now rewrite prop_get_set_other.
Qed.

Lemma assign_tidy :
  forall (obj : ErrorValue) (k : string) (c : ErrorValue),
    Forall (fun e => tidy (snd e)) (own_props obj) -> tidy c ->
    own_props (assign obj k c) <> []
    /\ Forall (fun e => tidy (snd e)) (own_props (assign obj k c)).
Proof.
  intros obj k c Hall Hc. rewrite (proj1 (own_props_assign obj k c)).
  split; [apply prop_set_nonempty|].
  now apply (prop_set_forall _ tidy).
Qed.

Lemma place_own_compatible :
  forall (segments : list string) (error : ErrorObject) (obj : ErrorValue),
    segments <> [] ->
    is_list obj = false ->
    Forall (fun e => tidy (snd e)) (own_props obj) ->
    (forall q, has_leaf q obj ->
               proper_prefix q segments = false
               /\ proper_prefix segments q = false) ->
    exists obj',
      place_own segments error obj = Returns obj'
      /\ is_list obj' = false
      /\ own_props obj' <> []
      /\ Forall (fun e => tidy (snd e)) (own_props obj')
      /\ (forall q, has_leaf q obj' -> q = segments \/ has_leaf q obj).
Proof.
  induction segments as [|key rest IH]; intros error obj Hne Hrec Hall Hfree;
    [contradiction|].
  destruct rest as [|key' rest'].
  - (* the last segment *)
    cbn [place_own].
    destruct (prop_get (own_props obj) key) as [[cps|items cps]|] eqn:Eg.
    + (* a record sits where the list goes: a longer path was seen *)
      exfalso.
      pose proof (prop_get_forall _ tidy _ _ _ Hall Eg) as Hc.
      destruct (tidy_has_leaf (ERecord cps) Hc eq_refl) as [q Hq].
      destruct q as [|k1 q1]; [contradiction|].
      assert (Hleaf : has_leaf (key :: k1 :: q1) obj).
      { cbn [has_leaf]. rewrite Eg. exact Hq. }
      apply Hfree in Hleaf as [_ Hp].
      now rewrite proper_prefix_single in Hp.
    + pose proof (prop_get_forall _ tidy _ _ _ Hall Eg) as [Hitems ->].
      cbn [prop_get].
      exists (assign obj key (EList (items ++ [error]) [])).
      assert (Hc : tidy (EList (items ++ [error]) [])).
      { split; [now destruct items|reflexivity]. }
      destruct (assign_tidy obj key _ Hall Hc) as [Hn Ht].
      repeat split; trivial.
      * now rewrite (proj2 (own_props_assign obj key _)).
      * intros [|k1 q1] Hq; [contradiction|].
        apply has_leaf_assign in Hq.
        destruct (String.eqb key k1) eqn:E; [|now right].
        apply String.eqb_eq in E; subst k1.
        destruct q1 as [|k2 q2]; [now left|contradiction].
    + exists (assign obj key (EList [error] [])).
      assert (Hc : tidy (EList [error] [])) by (split; [discriminate|reflexivity]).
      destruct (assign_tidy obj key _ Hall Hc) as [Hn Ht].
      repeat split; trivial.
      * now rewrite (proj2 (own_props_assign obj key _)).
      * intros [|k1 q1] Hq; [contradiction|].
        apply has_leaf_assign in Hq.
        destruct (String.eqb key k1) eqn:E; [|now right].
        apply String.eqb_eq in E; subst k1.
        destruct q1 as [|k2 q2]; [now left|contradiction].
  - (* a segment on the way *)
    rewrite place_own_step.
    set (child := match prop_get (own_props obj) key with
                  | Some c => c
                  | None => ERecord []
                  end).
    assert (Hchild : is_list child = false
                     /\ Forall (fun e => tidy (snd e)) (own_props child)
                     /\ forall q, has_leaf q child ->
                                  has_leaf (key :: q) obj).
    { subst child.
      destruct (prop_get (own_props obj) key) as [[cps|items cps]|] eqn:Eg.
      - pose proof (prop_get_forall _ tidy _ _ _ Hall Eg) as Hc.
        apply tidy_record in Hc as [_ Hc].
        repeat split; trivial.
        intros [|k1 q1] Hq; [contradiction|].
        cbn [has_leaf]. rewrite Eg. exact Hq.
      - exfalso.
        assert (Hleaf : has_leaf [key] obj).
        { cbn [has_leaf]. now rewrite Eg. }
        apply Hfree in Hleaf as [Hp _].
        now rewrite proper_prefix_single in Hp.
      - repeat split; [constructor|].
        intros [|k1 q1] Hq; contradiction. }
    destruct Hchild as (Hcrec & Hcall & Hcleaf).
    destruct (IH error child) as (child' & Ep & Hrec' & Hne' & Hall' & Hleaf');
      [discriminate|exact Hcrec|exact Hcall| |].
    { intros q Hq. apply Hcleaf, Hfree in Hq.
      now rewrite !proper_prefix_cons in Hq. }
    rewrite Ep. exists (assign obj key child').
    assert (Hc : tidy child').
    { destruct child' as [cps|]; [|discriminate].
      apply tidy_record. now split. }
    destruct (assign_tidy obj key _ Hall Hc) as [Hn Ht].
    repeat split; trivial.
    + now rewrite (proj2 (own_props_assign obj key _)).
    + intros [|k1 q1] Hq; [contradiction|].
      apply has_leaf_assign in Hq.
      destruct (String.eqb key k1) eqn:E; [|now right].
      apply String.eqb_eq in E; subst k1.
      destruct q1 as [|k2 q2].
      * now rewrite Hrec' in Hq.
      * apply Hleaf' in Hq as [Hq|Hq]; [left; now rewrite Hq|right].
        now apply Hcleaf.
Qed.

Lemma prefix_free_spec :
  forall (paths : list (list string)) (p q : list string),
    prefix_free paths = true -> In p paths -> In q paths ->
    proper_prefix p q = false.
Proof.
  intros paths p q H Hp Hq. unfold prefix_free in H.
  rewrite forallb_forall in H. specialize (H p Hp).
  rewrite forallb_forall in H. specialize (H q Hq).
  now apply negb_true_iff in H.
Qed.

Lemma reduce_own_compatible :
  forall (errors : list ErrorObject) (seen : list (list string))
         (tree : ErrorValue),
    reshaped tree seen ->
    (forall p q,
        In p (seen ++ field_paths errors) ->
        In q (seen ++ field_paths errors) ->
        proper_prefix p q = false) ->
    exists tree',
      fold_left reduce_step_own
        (map (fun error => (error_path error, error)) errors)
        (Returns tree)
      = Returns tree'
      /\ reshaped tree' (seen ++ field_paths errors).
Proof.
  intro errors.
  induction errors as [|error rest IH]; intros seen tree Hinv Hfree.
  - exists tree. split; [reflexivity|]. cbn. now rewrite app_nil_r.
  - cbn [map fold_left reduce_step_own].
    unfold field_paths in *. cbn [map filter] in *.
    destruct (error_path error) as [|key more] eqn:Ep.
    + cbn [place_own]. now apply IH.
    + destruct Hinv as (Hrec & Hall & Hleaves).
      destruct (place_own_compatible (key :: more) error tree)
        as (tree' & Eplace & Hrec' & _ & Hall' & Hleaves');
        [discriminate|exact Hrec|exact Hall| |].
      { intros q Hq. apply Hleaves in Hq.
        split; apply Hfree; apply in_or_app;
          try (now left); right; now left. }
      rewrite Eplace.
      destruct (IH (seen ++ [key :: more])%list tree') as (final & Ef & Hf).
      * repeat split; trivial. intros q Hq. apply in_or_app.
        apply Hleaves' in Hq as [->|Hq]; [right; now left|left; auto].
      * intros p q. rewrite <- !app_assoc. apply Hfree.
      * exists final. split; [exact Ef|].
        now rewrite <- app_assoc in Hf.
Qed.

Lemma errorsToMap_own_prefix_free :
  forall errors : list ErrorObject,
    prefix_free (field_paths errors) = true ->
    exists tree,
      errorsToMap_own errors = Returns tree /\ well_shaped tree = true.
Proof.
  intros errors Hfree. rewrite errorsToMap_own_fold.
  destruct (reduce_own_compatible errors [] (ERecord [])) as (tree & E & Hinv).
  - repeat split; [constructor|]. intros [|k q] Hq; contradiction.
  - intros p q Hp Hq. now apply (prefix_free_spec (field_paths errors)).
  - exists tree. split; [exact E|].
    destruct Hinv as (Hrec & Hall & _).
    destruct tree as [props|]; [|discriminate].
    apply tidy_children_well_shaped; [|exact Hall].
    apply Forall_forall. intros e _. apply tidy_well_shaped.
Qed.

(** *** Paths of which one is a proper prefix of the other *)

Lemma path_tree_cons :
  forall (k k' : string) (rest : list string) (error : ErrorObject),
    path_tree (k :: k' :: rest) error
    = ERecord [(k, path_tree (k' :: rest) error)].
Proof. reflexivity. Qed.

Lemma proper_prefix_inv :
  forall (k : string) (p q : list string),
    proper_prefix (k :: p) q = true ->
    exists q', q = k :: q' /\ q' <> [] /\ proper_prefix p q' = true.
Proof.
  intros k p [|k1 q'] H; unfold proper_prefix in H; cbn in H;
    [discriminate|].
  apply andb_prop in H as [H Hlen]. apply andb_prop in H as [Hk Hpre].
  apply String.eqb_eq in Hk; subst k1. exists q'. repeat split.
  - intros ->. destruct p; cbn in Hlen; discriminate.
  - unfold proper_prefix. now rewrite Hpre.
Qed.

Lemma place_own_shorter_throws :
  forall (short long : list string) (e1 e2 : ErrorObject),
    short <> [] -> proper_prefix short long = true ->
    place_own short e2 (path_tree long e1) = Throws.
Proof.
  induction short as [|k rest IH]; intros long e1 e2 Hne Hp;
    [contradiction|].
  apply proper_prefix_inv in Hp as (long' & -> & Hne' & Hp).
  destruct long' as [|k1 l1]; [contradiction|].
  rewrite path_tree_cons.
  destruct rest as [|k' rest'].
  - cbn [place_own own_props prop_get]. rewrite String.eqb_refl.
    now destruct l1.
  - rewrite place_own_step. cbn [own_props prop_get].
    rewrite String.eqb_refl.
    now rewrite (IH (k1 :: l1) e1 e2) by (discriminate || exact Hp).
Qed.

Lemma place_own_in_list :
  forall (segments : list string) (error : ErrorObject)
         (items : list ErrorObject),
    place_own segments error (EList items [])
    = Returns (EList items (own_props (path_tree segments error))).
Proof.
  intros segments error items.
  destruct segments as [|k [|k' rest]]; try reflexivity.
  rewrite place_own_step. cbn [own_props prop_get].
  now rewrite place_own_in_empty_record.
Qed.

Lemma place_own_longer_ill_shaped :
  forall (short long : list string) (e1 e2 : ErrorObject),
    short <> [] -> proper_prefix short long = true ->
    exists tree,
      place_own long e2 (path_tree short e1) = Returns tree
      /\ well_shaped tree = false.
Proof.
  induction short as [|k rest IH]; intros long e1 e2 Hne Hp;
    [contradiction|].
  apply proper_prefix_inv in Hp as (long' & -> & Hne' & Hp).
  destruct long' as [|k1 l1]; [contradiction|].
  rewrite place_own_step.
  destruct rest as [|k' rest'].
  - cbn [path_tree own_props prop_get]. rewrite String.eqb_refl.
    rewrite place_own_in_list. eexists. split; [reflexivity|].
    unfold assign. cbn [own_props with_props prop_set].
    rewrite String.eqb_refl. cbn.
    now destruct l1.
  - rewrite path_tree_cons. cbn [own_props prop_get].
    rewrite String.eqb_refl.
    destruct (IH (k1 :: l1) e1 e2) as (child & Ec & Hc);
      [discriminate|exact Hp|].
    rewrite Ec. eexists. split; [reflexivity|].
    unfold assign. cbn [own_props with_props prop_set].
    rewrite String.eqb_refl. rewrite well_shaped_record. cbn [forallb snd].
    now rewrite Hc.
Qed.

Lemma errorsToMap_own_prefix_collision :
  forall short long : ErrorObject,
    error_path short <> [] ->
    proper_prefix (error_path short) (error_path long) = true ->
    errorsToMap_own [long; short] = Throws
    /\ exists tree,
        errorsToMap_own [short; long] = Returns tree
        /\ well_shaped tree = false.
Proof.
  intros short long Hne Hp. rewrite !errorsToMap_own_fold.
  cbn [map fold_left reduce_step_own]. rewrite !place_own_in_empty_record.
  split.
  - now apply place_own_shorter_throws.
  - now apply place_own_longer_ill_shaped.
Qed.

(** *** Reading back what was filed *)

Lemma errors_at_assign :
  forall (obj : ErrorValue) (k : string) (c : ErrorValue)
         (k1 : string) (rest : list string),
    errors_at (k1 :: rest) (assign obj k c)
    = if String.eqb k k1
      then match rest with
           | [] => node_items c
           | _ :: _ => errors_at rest c
           end
      else errors_at (k1 :: rest) obj.
Proof.
  intros obj k c k1 rest. cbn [errors_at].
  rewrite (proj1 (own_props_assign obj k c)).
  destruct (String.eqb k k1) eqn:E.
  - apply String.eqb_eq in E; subst k1. now rewrite prop_get_set_same.
  - apply String.eqb_neq in E. now rewrite prop_get_set_other.
Qed.

Lemma place_own_node_items :
  forall (segments : list string) (error : ErrorObject)
         (obj obj' : ErrorValue),
    place_own segments error obj = Returns obj' ->
    node_items obj' = node_items obj.
Proof.
  intros segments error obj obj' H.
  assert (Ha : forall k c, node_items (assign obj k c) = node_items obj)
    by (intros k c; now destruct obj).
  destruct segments as [|k [|k' rest]].
  - cbn in H. now injection H as <-.
  - cbn [place_own] in H.
    destruct (prop_get (own_props obj) k) as [[cps|items cps]|];
      try discriminate.
    + destruct (prop_get cps "push"); [discriminate|].
      injection H as <-. apply Ha.
    + injection H as <-. apply Ha.
  - rewrite place_own_step in H.
    destruct (place_own (k' :: rest) error _); try discriminate.
    injection H as <-. apply Ha.
Qed.

Lemma place_own_errors_at :
  forall (segments : list string) (error : ErrorObject)
         (obj obj' : ErrorValue),
    place_own segments error obj = Returns obj' ->
    forall q, q <> [] ->
      errors_at q obj'
      = (errors_at q obj
         ++ if path_eqb segments q then [error] else [])%list.
Proof.
  induction segments as [|key rest IH]; intros error obj obj' H q Hq.
  - cbn in H. injection H as <-.
    destruct q; [contradiction|]. cbn [path_eqb]. now rewrite app_nil_r.
  - destruct q as [|k1 q1]; [contradiction|]. cbn [path_eqb].
    destruct rest as [|key' rest'].
    + (* the last segment *)
      cbn [place_own] in H.
      destruct (prop_get (own_props obj) key) as [[cps|items cps]|] eqn:Eg;
        try discriminate.
      * destruct (prop_get cps "push"); [discriminate|].
        injection H as <-. rewrite errors_at_assign.
        destruct (String.eqb key k1) eqn:E; cbn [andb];
          [|now rewrite app_nil_r].
        apply String.eqb_eq in E; subst k1.
        cbn [errors_at]. rewrite Eg.
        destruct q1 as [|k2 q2]; cbn [path_eqb node_items];
          [reflexivity|].
        cbn [errors_at own_props]. now rewrite app_nil_r.
      * injection H as <-. rewrite errors_at_assign.
        destruct (String.eqb key k1) eqn:E; cbn [andb];
          [|now rewrite app_nil_r].
        apply String.eqb_eq in E; subst k1.
        cbn [errors_at]. rewrite Eg.
        destruct q1 as [|k2 q2]; cbn [path_eqb node_items];
          reflexivity.
    + (* a segment on the way *)
      rewrite place_own_step in H.
      destruct (place_own (key' :: rest') error _) as [child'| |] eqn:Ep;
        try discriminate.
      injection H as <-. rewrite errors_at_assign.
      destruct (String.eqb key k1) eqn:E; cbn [andb];
        [|now rewrite app_nil_r].
      apply String.eqb_eq in E; subst k1.
      destruct q1 as [|k2 q2].
      * cbn [path_eqb]. rewrite app_nil_r.
        rewrite (place_own_node_items _ _ _ _ Ep).
        cbn [errors_at].
        now destruct (prop_get (own_props obj) key).
      * rewrite (IH error _ child' Ep (k2 :: q2)) by discriminate.
        cbn [errors_at].
        now destruct (prop_get (own_props obj) key).
Qed.

Lemma errorsToMap_own_errors_at :
  forall (errors : list ErrorObject) (tree : ErrorRecord)
         (q : list string),
    errorsToMap_own errors = Returns tree ->
    q <> [] ->
    errors_at q tree
    = filter (fun error => path_eqb (error_path error) q) errors.
Proof.
  intro errors.
  induction errors as [|error rest IH] using rev_ind; intros tree q H Hq.
  - cbn in H. injection H as <-. now destruct q as [|k [|k' q']].
  - rewrite errorsToMap_own_app in H. cbn [map fold_left] in H.
    destruct (errorsToMap_own rest) as [t| |]; try discriminate.
    rewrite (place_own_errors_at _ _ _ _ H q Hq), (IH t q eq_refl Hq).
    rewrite filter_app. cbn [filter].
    now destruct (path_eqb (error_path error) q).
Qed.

(** ** Error reshaper: plain keys *)


Lemma plain_key_facts :
  forall k : string,
    plain_key k = true ->
    name_in k object_prototype_names = false
    /\ name_in k array_prototype_names = false
    /\ name_in k later_array_names = false
    /\ String.eqb k "length" = false
    /\ array_index k = None.
Proof.
  intros k H. unfold plain_key in H. apply negb_true_iff in H.
  apply orb_false_iff in H as [H Hi].
  apply orb_false_iff in H as [H Hlen].
  apply orb_false_iff in H as [H Hl].
  apply orb_false_iff in H as [Ho Ha].
  repeat split; trivial.
  now destruct (array_index k).
Qed.

Lemma slot_of_plain :
  forall (obj : ErrorValue) (key : string),
    plain_key key = true ->
    slot_of obj key
    = match prop_get (own_props obj) key with
      | Some child => Own child
      | None => Vacant
      end.
Proof.
  intros obj key H.
  destruct (plain_key_facts key H) as (Ho & Ha & Hl & Hlen & Hi).
  destruct obj as [props|items props]; cbn [slot_of own_props].
  - now rewrite Ho.
  - rewrite Hi, Hlen, Ho, Ha, Hl. cbn [orb].
    destruct (String.eqb key "__proto__") eqn:E; [|reflexivity].
    apply String.eqb_eq in E; subst key. discriminate.
Qed.

(** On plain keys [place] is the walk on own properties. *)
Lemma place_plain :
  forall (segments : list string) (error : ErrorObject) (obj : ErrorValue),
    forallb plain_key segments = true ->
    place segments error obj = place_own segments error obj.
Proof.
  induction segments as [|key rest IH]; intros error obj H; [reflexivity|].
  cbn [forallb] in H. apply andb_prop in H as [Hkey Hrest].
  destruct rest as [|key' rest'].
  - cbn [place place_own]. rewrite (slot_of_plain obj key Hkey).
    now destruct (prop_get (own_props obj) key) as [[ps|items ps]|].
  - rewrite place_cons, place_own_step, (slot_of_plain obj key Hkey).
    destruct (prop_get (own_props obj) key) as [child|];
      now rewrite (IH error _ Hrest).
Qed.

Lemma reduce_plain :
  forall (errors : list ErrorObject) (acc : Completion ErrorRecord),
    plain_paths errors = true ->
    fold_left reduce_step
      (map (fun error => (error_path error, error)) errors) acc
    = fold_left reduce_step_own
        (map (fun error => (error_path error, error)) errors) acc.
Proof.
  intro errors. induction errors as [|error rest IH]; intros acc H;
    [reflexivity|].
  unfold plain_paths in H. cbn [forallb] in H.
  apply andb_prop in H as [Hfirst Hrest].
  cbn [map fold_left]. rewrite (IH _ Hrest). f_equal.
  destruct acc as [tree| |]; cbn [reduce_step reduce_step_own];
    try reflexivity.
  now apply place_plain.
Qed.

Lemma errorsToMap_fold :
  forall errors : list ErrorObject,
    errorsToMap errors
    = fold_left reduce_step
        (map (fun error => (error_path error, error)) errors)
        (Returns (ERecord [])).
Proof. reflexivity. Qed.

Lemma errorsToMap_plain :
  forall errors : list ErrorObject,
    plain_paths errors = true ->
    errorsToMap errors = errorsToMap_own errors.
Proof.
  intros errors H. rewrite errorsToMap_fold, errorsToMap_own_fold.
  now apply reduce_plain.
Qed.

Lemma plain_paths_same :
  forall (segments : list string) (errors : list ErrorObject),
    forallb plain_key segments = true ->
    Forall (fun error => error_path error = segments) errors ->
    plain_paths errors = true.
Proof.
  intros segments errors Hs Hall. unfold plain_paths.
  apply forallb_forall. intros error Hin.
  rewrite Forall_forall in Hall. now rewrite (Hall error Hin).
Qed.

(** X12: errors that share one non-empty field path made of plain keys
    accumulate in one list, in the order in which they were given, at the
    end of the chain of records along that path. *)
Theorem errorsToMap_same_path :
  forall (segments : list string) (first : ErrorObject)
         (others : list ErrorObject),
    segments <> [] ->
    forallb plain_key segments = true ->
    Forall (fun error => error_path error = segments) (first :: others) ->
    errorsToMap (first :: others)
    = Returns (path_list_tree segments (first :: others)).
Proof.
  intros segments first others Hne Hplain Hall.
  rewrite (errorsToMap_plain _ (plain_paths_same _ _ Hplain Hall)).
  now apply errorsToMap_own_same_path.
Qed.

Lemma errorsToMap_same_path_witness :
  errorsToMap [minLength_at_name; pattern_at_name]
  = Returns (ERecord [("user",
                       ERecord [("name",
                                 EList [minLength_at_name; pattern_at_name]
                                       [])])]).
Proof.
  apply (errorsToMap_same_path ["user"; "name"] minLength_at_name
           [pattern_at_name]).
  - discriminate.
  - reflexivity.
  - repeat constructor.
Defined.

(** X13: when every segment of the field paths is a plain key and no
    non-empty field path is a proper prefix of another, [errorsToMap]
    returns, and the tree it returns keeps the invariant of the error
    tree: every key holds either a record or a non-empty list without
    named properties. *)
Theorem errorsToMap_prefix_free :
  forall errors : list ErrorObject,
    plain_paths errors = true ->
    prefix_free (field_paths errors) = true ->
    exists tree,
      errorsToMap errors = Returns tree /\ well_shaped tree = true.
Proof.
  intros errors Hplain Hfree. rewrite (errorsToMap_plain _ Hplain).
  now apply errorsToMap_own_prefix_free.
Qed.

Lemma errorsToMap_prefix_free_witness :
  exists tree,
    errorsToMap [minLength_at_name; required_email; root_error;
                 pattern_at_name] = Returns tree
    /\ well_shaped tree = true.
Proof.
  apply (errorsToMap_prefix_free
           [minLength_at_name; required_email; root_error; pattern_at_name]);
    reflexivity.
Defined.

(** X14: for two errors with field paths made of plain keys, of which the
    first-named has a non-empty path that is a proper prefix of the
    other's: given the longer path first, [errorsToMap] throws; given the
    shorter path first, it returns a tree that breaks the invariant, the
    list at the shorter path carrying named properties. *)
Theorem errorsToMap_prefix_collision :
  forall short long : ErrorObject,
    plain_paths [short; long] = true ->
    error_path short <> [] ->
    proper_prefix (error_path short) (error_path long) = true ->
    errorsToMap [long; short] = Throws
    /\ exists tree,
        errorsToMap [short; long] = Returns tree
        /\ well_shaped tree = false.
Proof.
  intros short long Hplain Hne Hp.
  assert (Hplain' : plain_paths [long; short] = true).
  { unfold plain_paths in *. cbn [forallb] in *.
    apply andb_prop in Hplain as [Hs Hl].
    apply andb_prop in Hl as [Hl _]. now rewrite Hs, Hl. }
  rewrite (errorsToMap_plain _ Hplain), (errorsToMap_plain _ Hplain').
  now apply errorsToMap_own_prefix_collision.
Qed.

Lemma errorsToMap_prefix_collision_witness :
  errorsToMap [minLength_at_name;
               mkError "type" ".user" "#/properties/user/type" OtherParams]
  = Throws.
Proof.
  apply (errorsToMap_prefix_collision
           (mkError "type" ".user" "#/properties/user/type" OtherParams)
           minLength_at_name).
  - reflexivity.
  - discriminate.
  - reflexivity.
Defined.

(** X15: when every segment of the field paths is a plain key and
    [errorsToMap] returns, the list read at a non-empty path of the tree
    holds exactly the errors whose field path is that path, in the order
    of the input; no error with a non-empty path is lost, repeated or
    filed elsewhere. *)
Theorem errorsToMap_errors_at :
  forall (errors : list ErrorObject) (tree : ErrorRecord)
         (q : list string),
    plain_paths errors = true ->
    errorsToMap errors = Returns tree ->
    q <> [] ->
    errors_at q tree
    = filter (fun error => path_eqb (error_path error) q) errors.
Proof.
  intros errors tree q Hplain H Hq.
  rewrite (errorsToMap_plain _ Hplain) in H.
  now apply errorsToMap_own_errors_at.
Qed.

Lemma errorsToMap_errors_at_witness :
  errors_at ["user"; "name"]
    (ERecord [("user",
               ERecord [("name", EList [minLength_at_name; pattern_at_name] []);
                        ("email", EList [required_email] [])])])
  = [minLength_at_name; pattern_at_name].
Proof.
  apply (errorsToMap_errors_at
           [minLength_at_name; required_email; root_error; pattern_at_name]).
  - reflexivity.
  - reflexivity.
  - discriminate.
Defined.

(** ** Component resolver *)

(** X16: [repackComponents] never changes the components registered per
    type, so resolving a type other than "object" gives the same component
    before and after it, with no props. *)
Theorem repackComponents_keeps_registered :
  forall (components : FormComponents) (type type' : JSONSchemaTypeName)
         (key key' : string),
    registered (repackComponents components type key)
    = registered components
    /\ (is_object type' = false ->
        getComponent (repackComponents components type key) type' key'
        = getComponent components type' key'
        /\ getComponentProps (repackComponents components type key) type' key'
           = []).
Proof.
  intros components type type' key key'.
  assert (Hreg : registered (repackComponents components type key)
                 = registered components).
  { unfold repackComponents.
    destruct (is_object type); [|reflexivity].
    now destruct (path components). }
  split; [exact Hreg|].
  intro Ht. unfold getComponent, getComponentProps.
  now rewrite Ht, Hreg.
Qed.

Lemma repackComponents_keeps_registered_witness :
  getComponent (repackComponents registry_nested TObject "address")
    TString "name"
  = getComponent registry_nested TString "name".
Proof.
  apply (proj2 (repackComponents_keeps_registered registry_nested
                  TObject TString "address" "name")).
  reflexivity.
Defined.

Lemma path_is_mapping_cases :
  forall components : FormComponents,
    path_is_mapping components = true ->
    path components = None
    \/ exists m, path components = Some (Nested m).
Proof.
  intros components H. unfold path_is_mapping in H.
  destruct (path components) as [[c|c p|m|n]|]; try discriminate; eauto.
Qed.

(** X22: for a registry whose [path] is absent or a mapping: for type
    "object" with a pair at the key, [getComponent] returns the first
    element of the pair and [getComponentProps] the second; with a bare
    component at the key, [getComponent] returns it; in every case but
    that of a pair the props are empty; and when the type is not "object"
    or the read of [path] at the key finds nothing, neither an entry nor an
    inherited member, [getComponent] returns the component registered for
    the type. *)
Theorem component_resolution :
  forall (components : FormComponents) (type : JSONSchemaTypeName)
         (key : string),
    path_is_mapping components = true ->
    (forall c p,
        type = TObject ->
        pathComponent_of components key = Some (WithProps c p) ->
        getComponent components type key = Some (Bare c)
        /\ getComponentProps components type key = p)
    /\ (forall c,
        type = TObject ->
        pathComponent_of components key = Some (Bare c) ->
        getComponent components type key = Some (Bare c))
    /\ ((type <> TObject
         \/ forall c p, pathComponent_of components key <> Some (WithProps c p)) ->
        getComponentProps components type key = [])
    /\ ((type <> TObject \/ pathComponent_of components key = None) ->
        getComponent components type key
        = option_map Bare (registered components type)).
Proof.
  intros components type key _.
  unfold getComponent, getComponentProps.
  repeat split.
  - subst type; cbn. now rewrite H0.
  - subst type; cbn. now rewrite H0.
  - intros c Ht H; subst type; cbn. now rewrite H.
  - intros [Ht|Hn].
    + destruct type; try reflexivity. now contradiction Ht.
    + destruct (is_object type); [|reflexivity].
      destruct (pathComponent_of components key) as [[c|c p|m|n]|];
        try reflexivity.
      now contradiction (Hn c p).
  - intros [Ht|Hn].
    + destruct type; try reflexivity. now contradiction Ht.
    + rewrite Hn. now destruct (is_object type).
Qed.

Lemma component_resolution_witness :
  (getComponent registry_name TObject "name" = Some (Bare CompA)
   /\ getComponentProps registry_name TObject "name" = [("x", JNumber 1)])
  /\ getComponent registry_name TObject "age" = Some (Bare ObjectField)
  /\ getComponentProps registry_name TObject "age" = []
  /\ getComponent registry_name TString "name" = Some (Bare StringField).
Proof.
  split; [|split; [|split]].
  - apply (proj1 (component_resolution registry_name TObject "name" eq_refl)
             CompA [("x", JNumber 1)]); reflexivity.
  - apply (proj2 (proj2 (proj2
             (component_resolution registry_name TObject "age" eq_refl)))).
    right; reflexivity.
  - apply (proj1 (proj2 (proj2
             (component_resolution registry_name TObject "age" eq_refl)))).
    right; discriminate.
  - apply (proj2 (proj2 (proj2
             (component_resolution registry_name TString "name" eq_refl)))).
    left; discriminate.
Defined.

(** X17: after [repackComponents] for an object key whose entry is a
    nested mapping, [path] is read in that mapping: a read at a key finds
    what a read of the nested mapping finds, and a pair stored in it under
    the key resolves to its component and its props. *)
Theorem repackComponents_descends :
  forall (components : FormComponents) (key key' : string)
         (sub : list (string * PathEntry)),
    pathComponent_of components key = Some (Nested sub) ->
    pathComponent_of (repackComponents components TObject key) key'
    = entry_get (Nested sub) key'
    /\ (forall c p,
          prop_get sub key' = Some (WithProps c p) ->
          getComponent (repackComponents components TObject key)
            TObject key' = Some (Bare c)
          /\ getComponentProps (repackComponents components TObject key)
               TObject key' = p).
Proof.
  intros components key key' sub H.
  assert (Hp : pathComponent_of (repackComponents components TObject key) key'
               = entry_get (Nested sub) key').
  { unfold pathComponent_of, repackComponents in *. cbn [is_object].
    destruct (path components) as [m|]; [|discriminate].
    cbn [path]. now rewrite H. }
  split; [exact Hp|].
  intros c p Hc. unfold getComponent, getComponentProps. cbn [is_object].
  rewrite Hp. cbn [entry_get]. now rewrite Hc.
Qed.

Lemma repackComponents_descends_witness :
  getComponent (repackComponents registry_nested TObject "address")
    TObject "city" = Some (Bare CompB)
  /\ getComponentProps (repackComponents registry_nested TObject "address")
       TObject "city" = [("x", JNumber 1)].
Proof.
  apply (proj2 (repackComponents_descends registry_nested "address" "city"
                  [("city", WithProps CompB [("x", JNumber 1)])] eq_refl)
           CompB [("x", JNumber 1)]).
  reflexivity.
Defined.

(** X18: for a registry whose [path] is absent or a mapping: after
    [repackComponents] for an object key at which the read of [path] finds
    nothing, neither an entry nor an inherited member, no override is
    left: every key resolves to the component registered for the type,
    with no props, also when the outer [path] has an entry under the same
    name. *)
Theorem repackComponents_without_entry :
  forall (components : FormComponents) (key : string),
    path_is_mapping components = true ->
    pathComponent_of components key = None ->
    forall (type' : JSONSchemaTypeName) (key' : string),
      getComponent (repackComponents components TObject key) type' key'
      = option_map Bare (registered components type')
      /\ getComponentProps (repackComponents components TObject key)
           type' key' = [].
Proof.
  intros components key _ H type' key'.
  assert (Hp : path (repackComponents components TObject key) = None).
  { unfold pathComponent_of, repackComponents in *. cbn [is_object].
    destruct (path components) as [m|] eqn:E; [cbn [path]; exact H|].
    exact E. }
  assert (Hreg : registered (repackComponents components TObject key)
                 = registered components).
  { unfold repackComponents. cbn [is_object].
    now destruct (path components). }
  unfold getComponent, getComponentProps, pathComponent_of.
  rewrite Hp, Hreg. now destruct (is_object type').
Qed.

Lemma repackComponents_without_entry_witness :
  getComponent (repackComponents registry_nested TObject "shipping")
    TObject "name"
  = Some (Bare ObjectField)
  /\ getComponentProps (repackComponents registry_nested TObject "shipping")
       TObject "name" = [].
Proof.
  apply (repackComponents_without_entry registry_nested "shipping");
    reflexivity.
Defined.

(** X20: for a registry whose [path] is absent or a mapping, [getComponent]
    returns [undefined] exactly when no component is registered for the
    type and no override applies: the type is not "object", or the read of
    [path] at the key finds nothing, neither an entry nor an inherited
    member. *)
Theorem getComponent_undefined :
  forall (components : FormComponents) (type : JSONSchemaTypeName)
         (key : string),
    path_is_mapping components = true ->
    (getComponent components type key = None
     <-> registered components type = None
         /\ (is_object type = false
             \/ pathComponent_of components key = None)).
Proof.
  intros components type key _. unfold getComponent.
  destruct (is_object type).
  - destruct (pathComponent_of components key) as [[c|c p|m|n]|];
      destruct (registered components type); cbn;
      split; try discriminate; intuition discriminate.
  - destruct (registered components type); cbn;
      split; try discriminate; intuition discriminate.
Qed.

Lemma getComponent_undefined_witness :
  getComponent registry_unregistered TObject "age" = None
  /\ getComponent registry_unregistered TObject "constructor"
     = Some (Inherited "constructor").
Proof.
  split; [|reflexivity].
  apply (proj2 (getComponent_undefined registry_unregistered TObject "age"
                  eq_refl)).
  split; [reflexivity|right; reflexivity].
Defined.

(** ** Validator facade *)

Lemma accesses_after_first :
  forall (n : nat) (ajv : Ajv) (s : ModuleState),
    ajv_slot s = Some ajv ->
    accesses n s = (repeat ajv n, s).
Proof.
  induction n as [|n IH]; intros ajv s Hs; [reflexivity|].
  cbn [accesses repeat]. unfold options_ajv. rewrite Hs.
  now rewrite (IH ajv s Hs).
Qed.

(** X19: the getter [options.ajv] constructs the engine at most once: from
    any state, any number of accesses in a row return one and the same
    engine, the state after the first access is the state after the last,
    and at most one engine is constructed; an engine constructed by the
    getter collects all errors and has the draft-04 meta-schema. *)
Theorem options_ajv_once :
  forall (n : nat) (s : ModuleState),
    accesses (S n) s
    = (repeat (fst (options_ajv s)) (S n), snd (options_ajv s))
    /\ ajv_slot (snd (options_ajv s)) = Some (fst (options_ajv s))
    /\ constructed (snd (accesses (S n) s))
       = match ajv_slot s with
         | Some _ => constructed s
         | None => S (constructed s)
         end
    /\ (ajv_slot s = None ->
        allErrors (fst (options_ajv s)) = true
        /\ schemaId (fst (options_ajv s)) = "auto"
        /\ metaSchemas (fst (options_ajv s)) = ["json-schema-draft-04"]).
Proof.
  intros n s.
  assert (Hslot : ajv_slot (snd (options_ajv s)) = Some (fst (options_ajv s))).
  { unfold options_ajv. now destruct (ajv_slot s) eqn:E. }
  assert (Hacc : accesses (S n) s
                 = (repeat (fst (options_ajv s)) (S n), snd (options_ajv s))).
  { cbn [accesses repeat].
    destruct (options_ajv s) as [ajv s1] eqn:E. cbn [fst snd] in *.
    now rewrite (accesses_after_first n ajv s1 Hslot). }
  split; [exact Hacc|]. split; [exact Hslot|]. split.
  - rewrite Hacc. cbn [snd]. unfold options_ajv.
    now destruct (ajv_slot s).
  - intro E. unfold options_ajv. rewrite E. now cbn.
Qed.

Lemma options_ajv_once_witness :
  allErrors (fst (options_ajv (mkState None 0))) = true
  /\ schemaId (fst (options_ajv (mkState None 0))) = "auto"
  /\ metaSchemas (fst (options_ajv (mkState None 0)))
     = ["json-schema-draft-04"].
Proof.
  apply (proj2 (proj2 (proj2 (options_ajv_once 0 (mkState None 0))))).
  reflexivity.
Defined.
